(** * StokerCloud integration: client, token guard, event shaping

    A shallow embedding of the Home Assistant [stokercloud] custom component
    (files [api.py], [__init__.py], [sensor.py], [config_flow.py], [const.py])
    together with the properties of its client, its coordinators, its
    entities and its configuration flow.

    Conventions of the embedding.
    - A parsed JSON value is a [json] tree.  Python's [None] and JSON's [null]
      are the same value, so [payload.get(k)] of an absent key is [JNull].
      Numbers are Python integers; floating point literals are outside the model.
    - A Python [str] is a [string] whose characters are code points below 256.
    - A Python [dict] is an association list in insertion order; [dict_wf]
      says that its keys are pairwise distinct.
    - A Python exception is a constructor of [exn]; code that may raise
      returns a [result], and code that also talks to the server is a
      computation [M] over the state of the world.
    - The global names a module binds are a [namespace]; a name that is not
      bound raises [NameError] where it is evaluated. *)

From Stdlib Require Import ZArith List String Ascii Lia Bool DecimalString.
From stdpp Require Import base list strings.
From Equations Require Import Equations.

Set Warnings "-register-all".
Local Open Scope Z_scope.

(* ===================================================================== *)
(** ** Python values and the runtime helpers the component relies on *)
(* ===================================================================== *)

Module Py.

Inductive json : Type :=
| JNull
| JBool (b : bool)
| JInt (z : Z)
| JStr (s : string)
| JArr (items : list json)
| JObj (fields : list (string * json)).

(** [dict[str, Any]] in insertion order. *)
Abbreviation dict := (list (string * json)).

Definition is_dict (v : json) : bool :=
  match v with JObj _ => true | _ => false end.

Definition is_list (v : json) : bool :=
  match v with JArr _ => true | _ => false end.

Definition is_str (v : json) : bool :=
  match v with JStr _ => true | _ => false end.

(** The exceptions that can cross the functions modelled here. *)
Inductive exn : Type :=
| StokerCloudError (msg : string)
| StokerCloudAuthError (msg : string)
| ConfigEntryAuthFailed (msg : string)
| UpdateFailed (msg : string)
| ClientError (msg : string)
| ValueError (msg : string)
| NameError (name : string)
| AttributeError (msg : string)
| OtherError (msg : string).

(** [except StokerCloudAuthError] *)
Definition is_StokerCloudAuthError (e : exn) : bool :=
  match e with StokerCloudAuthError _ => true | _ => false end.

(** [except StokerCloudError]: the base class also catches its subclass. *)
Definition is_StokerCloudError (e : exn) : bool :=
  match e with
  | StokerCloudError _ | StokerCloudAuthError _ => true
  | _ => false
  end.

(** [str(err)] of an exception built from a single message argument. *)
Definition exn_str (e : exn) : string :=
  match e with
  | StokerCloudError m | StokerCloudAuthError m | ConfigEntryAuthFailed m
  | UpdateFailed m | ClientError m | ValueError m | AttributeError m
  | OtherError m => m
  | NameError n => "name '" +:+ n +:+ "' is not defined"
  end.

Inductive result (A : Type) : Type :=
| Ok (a : A)
| Raise (e : exn).
Arguments Ok {A} a.
Arguments Raise {A} e.

(** *** Dictionaries *)

Fixpoint dict_get (d : dict) (k : string) : option json :=
  match d with
  | [] => None
  | (k', v) :: d' => if String.eqb k' k then Some v else dict_get d' k
  end.

(** [d.get(k, dflt)] *)
Definition get_default (d : dict) (k : string) (dflt : json) : json :=
  match dict_get d k with Some v => v | None => dflt end.

(** [d.get(k)] *)
Definition get (d : dict) (k : string) : json := get_default d k JNull.

(** [k in d] *)
Definition has_key (d : dict) (k : string) : bool :=
  match dict_get d k with Some _ => true | None => false end.

(** [d[k] = v]: an existing key keeps its position, a new key goes last. *)
Fixpoint dict_set (d : dict) (k : string) (v : json) : dict :=
  match d with
  | [] => [(k, v)]
  | (k', v') :: d' =>
      if String.eqb k' k then (k', v) :: d' else (k', v') :: dict_set d' k v
  end.

Definition keys (d : dict) : list string := map fst d.
Definition values (d : dict) : list json := map snd d.

Definition dict_wf (d : dict) : Prop := NoDup (keys d).

(** *** Equality against literal constants: [x in (None, 0, "0")] *)

Inductive literal : Type :=
| LNone
| LInt (z : Z)
| LStr (s : string).

(** Python's [==] between a JSON value and a literal; [bool] is a subclass
    of [int], so [False == 0] and [True == 1]. *)
Definition py_eq (v : json) (c : literal) : bool :=
  match v, c with
  | JNull, LNone => true
  | JInt z, LInt z' => Z.eqb z z'
  | JBool b, LInt z' => Z.eqb (if b then 1 else 0) z'
  | JStr s, LStr s' => String.eqb s s'
  | _, _ => false
  end.

(** [v in (c1, ..., cn)] *)
Definition py_in (v : json) (cs : list literal) : bool :=
  existsb (py_eq v) cs.

(** *** Text *)

Definition hex_digit (n : nat) : ascii :=
  nth n (list_ascii_of_string "0123456789abcdef") "0"%char.

(** Two lowercase hexadecimal digits of a code point below 256. *)
Definition hex2 (c : ascii) : string :=
  let n := nat_of_ascii c in
  String (hex_digit (n / 16)) (String (hex_digit (n mod 16)) EmptyString).

(** [str.lower()] on code points below 256: A-Z and the Latin-1 capitals
    (U+00C0 to U+00DE without the multiplication sign U+00D7) move by 32. *)
Definition lower_char (c : ascii) : ascii :=
  let n := nat_of_ascii c in
  if ((65 <=? n) && (n <=? 90))%nat
     || ((192 <=? n) && (n <=? 222) && negb (n =? 215))%nat
  then ascii_of_nat (n + 32)
  else c.

Fixpoint lower (s : string) : string :=
  match s with
  | EmptyString => EmptyString
  | String c s' => String (lower_char c) (lower s')
  end.

(** [sub in s] for strings. *)
Fixpoint contains (sub s : string) : bool :=
  String.prefix sub s
  || match s with
     | EmptyString => false
     | String _ s' => contains sub s'
     end.

(** [str(n)] of an integer. *)
Definition str_int (z : Z) : string := NilZero.string_of_int (Z.to_int z).

(** The double quote character, U+0022. *)
Definition dquote : ascii := ascii_of_nat 34.

Definition has_char (c : ascii) (s : string) : bool :=
  existsb (Ascii.eqb c) (list_ascii_of_string s).

(** [repr] of one character inside quotes [q]. *)
Definition repr_char (q c : ascii) : string :=
  let n := nat_of_ascii c in
  if Ascii.eqb c q || Ascii.eqb c "\"%char then String "\"%char (String c EmptyString)
  else if (n =? 9)%nat then "\t"
  else if (n =? 10)%nat then "\n"
  else if (n =? 13)%nat then "\r"
  else if (n <? 32)%nat || (n =? 127)%nat
          || ((128 <=? n) && (n <=? 160))%nat || (n =? 173)%nat
       then "\x" +:+ hex2 c
  else String c EmptyString.

Fixpoint repr_chars (q : ascii) (s : string) : string :=
  match s with
  | EmptyString => EmptyString
  | String c s' => repr_char q c +:+ repr_chars q s'
  end.

(** [repr(s)]: single quotes unless the text has a single quote and no
    double quote. *)
Definition repr_str (s : string) : string :=
  let q := if has_char "'"%char s && negb (has_char dquote s)
           then dquote else "'"%char in
  String q (repr_chars q s) +:+ String q EmptyString.

Fixpoint repr (v : json) : string :=
  match v with
  | JNull => "None"
  | JBool true => "True"
  | JBool false => "False"
  | JInt z => str_int z
  | JStr s => repr_str s
  | JArr items => "[" +:+ String.concat ", " (map repr items) +:+ "]"
  | JObj fields =>
      "{" +:+ String.concat ", "
                (map (fun kv => repr_str (fst kv) +:+ ": " +:+ repr (snd kv)) fields)
          +:+ "}"
  end.

(** [str(v)] *)
Definition str (v : json) : string :=
  match v with
  | JStr s => s
  | _ => repr v
  end.

(** *** [json.dumps(v, separators=(",", ":"), ensure_ascii=False)] *)

(** With [ensure_ascii=False] only the quote, the backslash and the control
    characters below U+0020 are escaped. *)
Definition dumps_char (c : ascii) : string :=
  let n := nat_of_ascii c in
  if Ascii.eqb c dquote then String "\"%char (String dquote EmptyString)
  else if Ascii.eqb c "\"%char then "\\"
  else if (n =? 8)%nat then "\b"
  else if (n =? 9)%nat then "\t"
  else if (n =? 10)%nat then "\n"
  else if (n =? 12)%nat then "\f"
  else if (n =? 13)%nat then "\r"
  else if (n <? 32)%nat then "\u00" +:+ hex2 c
  else String c EmptyString.

Fixpoint dumps_chars (s : string) : string :=
  match s with
  | EmptyString => EmptyString
  | String c s' => dumps_char c +:+ dumps_chars s'
  end.

Definition dumps_str (s : string) : string :=
  String dquote (dumps_chars s) +:+ String dquote EmptyString.

Fixpoint dumps (v : json) : string :=
  match v with
  | JNull => "null"
  | JBool true => "true"
  | JBool false => "false"
  | JInt z => str_int z
  | JStr s => dumps_str s
  | JArr items => "[" +:+ String.concat "," (map dumps items) +:+ "]"
  | JObj fields =>
      "{" +:+ String.concat ","
                (map (fun kv => dumps_str (fst kv) +:+ ":" +:+ dumps (snd kv)) fields)
          +:+ "}"
  end.

End Py.
Import Py.

(* ===================================================================== *)
(** ** Effects: a state and exception monad *)
(* ===================================================================== *)

Module Eff.

(** A computation that reads and updates a state [S] and either returns a
    value or raises. *)
Definition M (S A : Type) : Type := S -> result A * S.

Definition ret {S A} (a : A) : M S A := fun s => (Ok a, s).

Definition raise {S A} (e : exn) : M S A := fun s => (Raise e, s).

Definition bind {S A B} (c : M S A) (k : A -> M S B) : M S B :=
  fun s =>
    match c s with
    | (Ok a, s') => k a s'
    | (Raise e, s') => (Raise e, s')
    end.

(** [try: c except E as err: h err], where [E] is the class test [catches]. *)
Definition try_except {S A} (c : M S A) (catches : exn -> bool)
    (h : exn -> M S A) : M S A :=
  fun s =>
    match c s with
    | (Raise e, s') => if catches e then h e s' else (Raise e, s')
    | r => r
    end.

Definition lift {S A} (r : result A) : M S A := fun s => (r, s).

Definition gets {S A} (f : S -> A) : M S A := fun s => (Ok (f s), s).

Definition modify {S} (f : S -> S) : M S unit := fun s => (Ok tt, f s).

End Eff.
Import Eff.

Notation "x <- c ;; k" := (bind c (fun x => k))
  (at level 100, c at next level, right associativity).

(* ===================================================================== *)
(** ** const.py *)
(* ===================================================================== *)

Module Const.

Definition API_BASE : string := "https://stokercloud.dk/v2/dataout2".
Definition LOGIN_PATH : string := "login.php".
Definition CONTROLLER_DATA_PATH : string := "controllerdata2.php".
Definition EVENT_DATA_PATH : string := "geteventdata.php".
Definition TRANSLATION_BASE : string :=
  "https://stokercloud.dk/v3/assets/json/translation".
Definition DEFAULT_TRANSLATION_LANGUAGE : string := "uk".
Definition DEFAULT_EVENT_COUNT : Z := 100.
Definition DEFAULT_EVENT_OFFSET : Z := 0.
Definition DEFAULT_SCREEN : string :=
  "b1,3,b2,5,b3,4,b4,6,b5,12,b6,14,b7,15,b8,16,b9,9,"
  +:+ "b10,0,"
  +:+ "d1,3,d2,4,d3,0,d4,0,d5,0,d6,0,d7,0,d8,0,d9,0,d10,0,"
  +:+ "h1,2,h2,3,h3,4,h4,7,h5,8,h6,0,h7,0,h8,0,h9,0,h10,0,"
  +:+ "w1,2,w2,3,w3,9,w4,0,w5,0".

End Const.

(* ===================================================================== *)
(** ** api.py *)
(* ===================================================================== *)

Module Api.

(** The string constants visible under their names inside a module. *)
Abbreviation namespace := (list (string * string)).

(** What [from .const import (...)] at the top of [api.py] binds.  The
    import list has five names; [LOGIN_PATH] is not one of them. *)
Definition api_globals : namespace :=
  [ ("API_BASE", Const.API_BASE);
    ("CONTROLLER_DATA_PATH", Const.CONTROLLER_DATA_PATH);
    ("DEFAULT_SCREEN", Const.DEFAULT_SCREEN);
    ("EVENT_DATA_PATH", Const.EVENT_DATA_PATH);
    ("TRANSLATION_BASE", Const.TRANSLATION_BASE) ].

(** Evaluating a global name: an unbound name raises [NameError]. *)
Fixpoint load_name (g : namespace) (name : string) : result string :=
  match g with
  | [] => Raise (NameError name)
  | (n, v) :: g' => if String.eqb n name then Ok v else load_name g' name
  end.

(** The f-string [f"{A}/{B}"] over two global names, evaluated left to right. *)
Definition url_of (g : namespace) (a b : string) : result string :=
  match load_name g a with
  | Raise e => Raise e
  | Ok base =>
      match load_name g b with
      | Raise e => Raise e
      | Ok path => Ok (base +:+ "/" +:+ path)
      end
  end.

(** [dict[str, str]]: the translation table. *)
Abbreviation table := (list (string * string)).

Fixpoint table_get (t : table) (k : string) : option string :=
  match t with
  | [] => None
  | (k', v) :: t' => if String.eqb k' k then Some v else table_get t' k
  end.

Record LoginResult : Type := mkLoginResult {
  token : string;
  credentials : json;
  master : json
}.

(** [v.get]: only a dict has the method. *)
Definition type_name (v : json) : string :=
  match v with
  | JNull => "NoneType"
  | JBool _ => "bool"
  | JInt _ => "int"
  | JStr _ => "str"
  | JArr _ => "list"
  | JObj _ => "dict"
  end.

Definition no_get (v : json) : exn :=
  AttributeError ("'" +:+ type_name v +:+ "' object has no attribute 'get'").

(** *** [_extract_events] *)

(** [[item for item in value if isinstance(item, dict)]] *)
Fixpoint dict_items (value : list json) : list dict :=
  match value with
  | [] => []
  | JObj item :: rest => item :: dict_items rest
  | _ :: rest => dict_items rest
  end.

(** The first loop: [for key in (...): value = payload.get(key); if
    isinstance(value, list): return ...]; [None] when the loop falls through. *)
Fixpoint scan_candidates (payload : dict) (cands : list string)
  : option (list dict) :=
  match cands with
  | [] => None
  | key :: rest =>
      match get payload key with
      | JArr value => Some (dict_items value)
      | _ => scan_candidates payload rest
      end
  end.

(** The second loop: [for value in payload.values(): if isinstance(value,
    list) and any(isinstance(item, dict) for item in value): return ...]. *)
Fixpoint scan_values (vals : list json) : option (list dict) :=
  match vals with
  | [] => None
  | JArr value :: rest =>
      if existsb is_dict value then Some (dict_items value)
      else scan_values rest
  | _ :: rest => scan_values rest
  end.

Definition candidate_keys : list string :=
  ["events"; "eventdata"; "data"; "items"; "rows"; "log"].

Definition _extract_events (payload : json) : list dict :=
  match payload with
  | JArr items => dict_items items
  | JObj d =>
      match scan_candidates d candidate_keys with
      | Some r => r
      | None =>
          match scan_values (values d) with
          | Some r => r
          | None => []
          end
      end
  | _ => []
  end.

(** *** [_request_json] *)

(** The checks of [_request_json] on the parsed payload (after the [try]). *)
Definition classify (payload : json) : result json :=
  if negb (is_dict payload || is_list payload) then
    Raise (StokerCloudError "Unexpected response type")
  else
    match payload with
    | JObj d =>
        let status := get d "status" in
        if negb (py_in status [LNone; LInt 0; LStr "0"]) then
          let message := get_default d "message" (JStr "Request failed") in
          let message_text := str message in
          if py_in status [LInt 401; LInt 403; LStr "401"; LStr "403"] then
            Raise (StokerCloudAuthError message_text)
          else
            let lowered := lower message_text in
            if contains "token" lowered
               && existsb (fun hint => contains hint lowered)
                    ["expired"; "invalid"; "reject"]
            then Raise (StokerCloudAuthError message_text)
            else Raise (StokerCloudError message_text)
        else Ok payload
    | _ => Ok payload
    end.

Section Client.

(** The world the client talks to, and the injected session:
    [session method url params] performs the request and parses the body
    with [resp.json(content_type=None)]; it raises [ClientError] for a
    transport failure and [ValueError] for a body that is not JSON. *)
Context {W : Type}.
Variable session : string -> string -> dict -> M W json.

(** The module namespace the methods are evaluated in. *)
Variable g : namespace.

Definition _request_json (method url : string) (params : dict) : M W json :=
  payload <-
    try_except
      (try_except (session method url params)
         (fun e => match e with ClientError _ => true | _ => false end)
         (fun err => raise (StokerCloudError (exn_str err))))
      (fun e => match e with ValueError _ => true | _ => false end)
      (fun err => raise (StokerCloudError "Invalid JSON response")) ;;
  lift (classify payload).

(** The body of [login] after the request. *)
Definition login_checks (data : json) : result LoginResult :=
  match data with
  | JObj d =>
      if negb (py_eq (get d "status") (LInt 0)) || negb (has_key d "token")
      then Raise (StokerCloudAuthError
                    (str (get_default d "message" (JStr "Login failed"))))
      else Ok {| token := str (get d "token");
                 credentials := get d "credentials";
                 master := get d "master" |}
  | _ => Raise (no_get data)
  end.

Definition login (username : string) : M W LoginResult :=
  let params := [("user", JStr username)] in
  url <- lift (url_of g "API_BASE" "LOGIN_PATH") ;;
  data <- _request_json "post" url params ;;
  lift (login_checks data).

Definition fetch_controller_data (token : string) : M W json :=
  url <- lift (url_of g "API_BASE" "CONTROLLER_DATA_PATH") ;;
  screen <- lift (load_name g "DEFAULT_SCREEN") ;;
  let params := [("screen", JStr screen); ("token", JStr token)] in
  payload <- _request_json "get" url params ;;
  match payload with
  | JObj d =>
      if py_in (get d "status") [LInt 401; LInt 403; LStr "401"; LStr "403"]
      then raise (StokerCloudAuthError "Token rejected")
      else if negb (has_key d "miscdata")
      then raise (StokerCloudError "Unexpected controller data payload")
      else ret payload
  | _ => raise (StokerCloudError "Unexpected controller data payload")
  end.

Definition fetch_event_data (token : string) (count offset : Z) : M W dict :=
  url <- lift (url_of g "API_BASE" "EVENT_DATA_PATH") ;;
  let params :=
    [("count", JInt count); ("offset", JInt offset); ("token", JStr token)] in
  payload <- _request_json "get" url params ;;
  ret [("raw", payload); ("events", JArr (map JObj (_extract_events payload)))].

(** [{str(key): str(value) for key, value in payload.items() if
    isinstance(key, str) and isinstance(value, str)}]; the keys of a parsed
    JSON object always are strings. *)
Fixpoint str_entries (d : dict) : table :=
  match d with
  | [] => []
  | (key, JStr value) :: d' => (key, value) :: str_entries d'
  | _ :: d' => str_entries d'
  end.

Definition fetch_translations (language : string) : M W table :=
  base <- lift (load_name g "TRANSLATION_BASE") ;;
  let url := base +:+ "/" +:+ language +:+ ".json" in
  payload <- _request_json "get" url [] ;;
  match payload with
  | JObj d => ret (str_entries d)
  | _ => raise (StokerCloudError "Unexpected translation payload")
  end.

End Client.

End Api.

(* ===================================================================== *)
(** ** __init__.py: the closures of [async_setup_entry] *)
(* ===================================================================== *)

Module Init.

(** The methods of the [client] object the closures call. *)
Record Client (W : Type) : Type := mkClient {
  login : string -> M W Api.LoginResult;
  fetch_controller_data : string -> M W json;
  fetch_event_data : string -> Z -> Z -> M W dict;
  fetch_translations : string -> M W Api.table
}.
Arguments mkClient {W} _ _ _ _.
Arguments login {W} _ _.
Arguments fetch_controller_data {W} _ _.
Arguments fetch_event_data {W} _ _ _ _.
Arguments fetch_translations {W} _ _.

(** [StokerCloudClient(session)], its methods evaluated in namespace [g]. *)
Definition StokerCloudClient {W : Type}
    (session : string -> string -> dict -> M W json) (g : Api.namespace)
  : Client W :=
  {| login := Api.login session g;
     fetch_controller_data := Api.fetch_controller_data session g;
     fetch_event_data := Api.fetch_event_data session g;
     fetch_translations := Api.fetch_translations session g |}.

(** Calls made through the token guard, in order (a ghost log). *)
Inductive call : Type :=
| CLogin
| CFetch (token : string).

Definition is_login (c : call) : bool :=
  match c with CLogin => true | CFetch _ => false end.

Definition is_fetch (c : call) : bool :=
  match c with CLogin => false | CFetch _ => true end.

(** The variables of [async_setup_entry] its closures share: the nonlocal
    [token], the world behind [client], and the ghost log. *)
Record state (W : Type) : Type := mkState {
  token : option string;
  world : W;
  calls : list call
}.
Arguments mkState {W} _ _ _.
Arguments token {W} _.
Arguments world {W} _.
Arguments calls {W} _.

Definition logins {W} (s : state W) : nat := length (List.filter is_login (calls s)).
Definition attempts {W} (s : state W) : nat := length (List.filter is_fetch (calls s)).

Section Closures.

Context {W : Type}.
Variable client : Client W.
Variable username : string.
Variable translations : option Api.table.

(** Run a client method on the world and log the call. *)
Definition logged {A} (c : call) (m : M W A) : M (state W) A :=
  fun s =>
    let (r, w') := m (world s) in
    (r, mkState (token s) w' (calls s ++ [c])).

Definition set_token (t : string) : M (state W) unit :=
  modify (fun s => mkState (Some t) (world s) (calls s)).

(** The body of the inner loop: [if isinstance(value, str) and value in
    translations: out[f"{key}_translated"] = translations[value]]. *)
Definition translate_field (t : Api.table) (out : dict) (kv : string * json)
  : dict :=
  match snd kv with
  | JStr value =>
      match Api.table_get t value with
      | Some text => dict_set out (fst kv +:+ "_translated") (JStr text)
      | None => out
      end
  | _ => out
  end.

(** [out = dict(event)], then the loop over [event.items()]. *)
Definition translate_event (t : Api.table) (event : dict) : dict :=
  fold_left (translate_field t) event event.

(** [if not translations] holds for [None] and for the empty dict. *)
Definition _apply_translations (events : list dict) : list dict :=
  match translations with
  | None | Some [] => events
  | Some t => map (translate_event t) events
  end.

Definition _fetch_with_auth_retry {A} (fetcher : string -> M W A)
  : M (state W) A :=
  (* async with token_lock: *)
  current_token <-
    (cached <- gets token ;;
     match cached with
     | None =>
         r <- logged CLogin (login client username) ;;
         _ <- set_token (Api.token r) ;;
         ret (Api.token r)
     | Some t => ret t
     end) ;;
  try_except (logged (CFetch current_token) (fetcher current_token))
    is_StokerCloudAuthError
    (fun _ =>
       try_except
         (current_token <-
            ((* async with token_lock: *)
             r <- logged CLogin (login client username) ;;
             _ <- set_token (Api.token r) ;;
             ret (Api.token r)) ;;
          logged (CFetch current_token) (fetcher current_token))
         is_StokerCloudAuthError
         (fun err2 => raise (ConfigEntryAuthFailed (exn_str err2)))).

Definition _async_update_data : M (state W) json :=
  try_except (_fetch_with_auth_retry (fetch_controller_data client))
    is_StokerCloudError
    (fun err => raise (UpdateFailed (exn_str err))).

Definition _async_update_event_data : M (state W) dict :=
  data <-
    try_except
      (_fetch_with_auth_retry
         (fun t => fetch_event_data client t Const.DEFAULT_EVENT_COUNT
                     Const.DEFAULT_EVENT_OFFSET))
      is_StokerCloudError
      (fun err => raise (UpdateFailed (exn_str err))) ;;
  let data :=
    match get data "events" with
    | JArr events =>
        dict_set data "events"
          (JArr (map JObj (_apply_translations (Api.dict_items events))))
    | _ => data
    end in
  let data := dict_set data "count" (JInt Const.DEFAULT_EVENT_COUNT) in
  let data := dict_set data "offset" (JInt Const.DEFAULT_EVENT_OFFSET) in
  let data := dict_set data "translation_language"
                (JStr Const.DEFAULT_TRANSLATION_LANGUAGE) in
  let data := dict_set data "translations_loaded"
                (JBool (match translations with Some _ => true | None => false end)) in
  ret data.

End Closures.

(** The start of [async_setup_entry]: [translations] stays [None] when the
    fetch raises a [StokerCloudError]. *)
Definition load_translations {W} (client : Client W)
  : M W (option Api.table) :=
  try_except
    (t <- fetch_translations client Const.DEFAULT_TRANSLATION_LANGUAGE ;;
     ret (Some t))
    is_StokerCloudError
    (fun _ => ret None).

End Init.

(* ===================================================================== *)
(** ** sensor.py: truncation of the event list *)
(* ===================================================================== *)

Module Sensor.

Definition _MAX_STATE_ATTR_BYTES : Z := 16000.

(** [len(json.dumps(candidate, separators=(",", ":"), ensure_ascii=False))] *)
Definition _size (candidate : list dict) : Z :=
  Z.of_nat (String.length (dumps (JArr (map JObj candidate)))).

(** The slice [l[:n]]; a negative bound counts from the end. *)
Definition slice_to {A} (l : list A) (n : Z) : list A :=
  if n <? 0 then firstn (length l - Z.to_nat (- n)) l
  else firstn (Z.to_nat n) l.

(** A value together with the proof that it is the value tested. *)
Definition inspect {A : Type} (x : A) : {y : A | x = y} := exist _ x eq_refl.

(** The [while low <= high] loop; it returns the final [best]. *)
Equations? search (limit : Z) (events : list dict) (low high best : Z) : Z
  by wf (Z.to_nat (high + 1 - low)) lt :=
search limit events low high best with inspect (low <=? high) := {
  | exist _ true Hle =>
      let mid := (low + high) / 2 in
      if _size (slice_to events mid) <=? limit
      then search limit events (mid + 1) high mid
      else search limit events low (mid - 1) best
  | exist _ false _ => best }.
Proof.
  all: apply Z.leb_le in Hle;
    pose proof (Z.div_le_lower_bound (low + high) 2 low ltac:(lia) ltac:(lia));
    pose proof (Z.div_le_upper_bound (low + high) 2 high ltac:(lia) ltac:(lia));
    lia.
Qed.

(** The function with the budget as a parameter. *)
Definition truncate_to (limit : Z) (events : list dict) : list dict * bool :=
  match events with
  | [] => (events, false)
  | _ =>
      if _size events <=? limit then (events, false)
      else
        let best := search limit events 1 (Z.of_nat (length events)) 1 in
        (slice_to events best, true)
  end.

Definition _truncate_events_for_attributes (events : list dict)
  : list dict * bool :=
  truncate_to _MAX_STATE_ATTR_BYTES events.

(** The prefix of length [k] is within the budget. *)
Definition fits (limit : Z) (events : list dict) (k : Z) : Prop :=
  _size (slice_to events k) <= limit.

End Sensor.

(* ===================================================================== *)
(** ** Concurrent callers of [_fetch_with_auth_retry] *)
(* ===================================================================== *)

(** Several asyncio tasks run [_fetch_with_auth_retry] on the same closure.
    A task runs without interruption until it has to wait: for the lock of
    an [async with token_lock], for [client.login] or for [fetcher].  A task
    is therefore a state machine over these waiting points, resumed with
    the outcome of what it waited for; the scheduler and the server choose
    which task resumes next and with which outcome. *)

Module Conc.

Local Open Scope nat_scope.

(** Where a task waits. *)
Inductive pc : Type :=
| Start                   (* at the first [async with token_lock] *)
| Login                   (* holds the lock, awaits the lazy [client.login] *)
| Fetch1 (tok : string)   (* lock released, awaits [fetcher(current_token)] *)
| Relock                  (* first attempt rejected, at the second [async with] *)
| Relogin                 (* holds the lock, awaits the forced [client.login] *)
| Fetch2 (tok : string)   (* awaits the retried [fetcher(current_token)] *)
| Done (r : result json). (* returned or raised *)

Record task : Type := mkTask {
  at_pc : pc;
  (** ghost: the first value of [current_token] *)
  first_token : option string
}.

(** The variables the tasks share, with ghost counters. *)
Record shared : Type := mkShared {
  token : option string;
  locked : bool;               (* [token_lock.locked()] *)
  logins : nat;                (* ghost: [client.login] calls issued *)
  failed_logins : nat;         (* ghost: [client.login] calls that raised *)
  rejections : nat             (* ghost: first attempts that raised an auth error *)
}.

(** What a waiting task is resumed with. *)
Inductive outcome : Type :=
| Acquired                               (* the lock was granted *)
| LoginReturned (r : result string)      (* [(await client.login(...)).token] *)
| FetchReturned (r : result json).       (* [await fetcher(current_token)] *)

(** One task runs from its waiting point to the next one. *)
Definition task_step (sh : shared) (t : task) (o : outcome)
  : option (shared * task) :=
  match at_pc t, o with
  | Start, Acquired =>
      if locked sh then None
      else
        match token sh with
        | None =>
            Some (mkShared (token sh) true (S (logins sh)) (failed_logins sh)
                    (rejections sh),
                  mkTask Login (first_token t))
        | Some tok =>
            Some (sh, mkTask (Fetch1 tok) (Some tok))
        end
  | Login, LoginReturned (Ok tok) =>
      Some (mkShared (Some tok) false (logins sh) (failed_logins sh)
              (rejections sh),
            mkTask (Fetch1 tok) (Some tok))
  | Login, LoginReturned (Raise e) =>
      Some (mkShared (token sh) false (logins sh) (S (failed_logins sh))
              (rejections sh),
            mkTask (Done (Raise e)) (first_token t))
  | Fetch1 _, FetchReturned (Ok v) =>
      Some (sh, mkTask (Done (Ok v)) (first_token t))
  | Fetch1 _, FetchReturned (Raise e) =>
      if is_StokerCloudAuthError e then
        Some (mkShared (token sh) (locked sh) (logins sh) (failed_logins sh)
                (S (rejections sh)),
              mkTask Relock (first_token t))
      else Some (sh, mkTask (Done (Raise e)) (first_token t))
  | Relock, Acquired =>
      if locked sh then None
      else
        Some (mkShared (token sh) true (S (logins sh)) (failed_logins sh)
                (rejections sh),
              mkTask Relogin (first_token t))
  | Relogin, LoginReturned (Ok tok) =>
      Some (mkShared (Some tok) false (logins sh) (failed_logins sh)
              (rejections sh),
            mkTask (Fetch2 tok) (first_token t))
  | Relogin, LoginReturned (Raise e) =>
      Some (mkShared (token sh) false (logins sh) (S (failed_logins sh))
              (rejections sh),
            mkTask (Done (Raise (if is_StokerCloudAuthError e
                                 then ConfigEntryAuthFailed (exn_str e)
                                 else e)))
                   (first_token t))
  | Fetch2 _, FetchReturned (Ok v) =>
      Some (sh, mkTask (Done (Ok v)) (first_token t))
  | Fetch2 _, FetchReturned (Raise e) =>
      Some (sh, mkTask (Done (Raise (if is_StokerCloudAuthError e
                                     then ConfigEntryAuthFailed (exn_str e)
                                     else e)))
                       (first_token t))
  | _, _ => None
  end.

Record system : Type := mkSystem {
  vars : shared;
  tasks : list task
}.

(** Task [i] is resumed with outcome [o]. *)
Definition event : Type := nat * outcome.

Definition step (s : system) (ev : event) : option system :=
  match tasks s !! fst ev with
  | None => None
  | Some t =>
      match task_step (vars s) t (snd ev) with
      | None => None
      | Some (sh', t') => Some (mkSystem sh' (<[fst ev := t']> (tasks s)))
      end
  end.

(** A schedule is a sequence of events; it runs as long as each is enabled. *)
Fixpoint run (evs : list event) (s : system) : option system :=
  match evs with
  | [] => Some s
  | ev :: evs' =>
      match step s ev with
      | None => None
      | Some s' => run evs' s'
      end
  end.

(** [n] calls made at once on a guard whose cache holds [cached]. *)
Definition init (cached : option string) (n : nat) : system :=
  mkSystem (mkShared cached false 0 0 0) (replicate n (mkTask Start None)).

(** A task with a login request in flight. *)
Definition login_in_flight (t : task) : bool :=
  match at_pc t with Login | Relogin => true | _ => false end.

(** *** Invariants of the schedules *)

(** No login is in flight while the lock is free, and two tasks never have
    a login in flight together. *)
Definition mutex (s : system) : Prop :=
  (locked (vars s) = false ->
   forall i t, tasks s !! i = Some t -> login_in_flight t = false) /\
  (forall i j ti tj,
     tasks s !! i = Some ti -> tasks s !! j = Some tj ->
     login_in_flight ti = true -> login_in_flight tj = true -> i = j).

(** A state in which no attempt was rejected and, for callers that started
    on an empty cache, no login has failed. *)
Definition calm (cached : option string) (sh : shared) : Prop :=
  rejections sh = 0 /\ (cached = None -> failed_logins sh = 0).

(** The waiting points of such runs. *)
Definition calm_pc (p : pc) : bool :=
  match p with
  | Start | Login | Fetch1 _ | Done _ => true
  | Relock | Relogin | Fetch2 _ => false
  end.

(** A task that has left the guarded section at the start. *)
Definition past_guard (t : task) : bool :=
  match at_pc t with Start | Login => false | _ => true end.

(** The invariant of the calm runs that start with the cache [cached]. *)
Definition settled (cached : option string) (s : system) : Prop :=
  (forall i t, tasks s !! i = Some t -> calm_pc (at_pc t) = true) /\
  (forall i t tok, tasks s !! i = Some t -> first_token t = Some tok ->
                   token (vars s) = Some tok) /\
  (forall i t, tasks s !! i = Some t -> past_guard t = true ->
               first_token t <> None) /\
  match cached with
  | Some t0 =>
      token (vars s) = Some t0 /\ logins (vars s) = 0 /\ locked (vars s) = false
  | None =>
      logins (vars s)
      = (if token (vars s) is Some _ then 1 else 0)
        + (if locked (vars s) then 1 else 0) /\
      (token (vars s) <> None -> locked (vars s) = false)
  end.

(** *** One caller alone, driven by the client *)

Section Alone.

Context {W : Type}.
Variable client : Init.Client W.
Variable username : string.
Variable fetcher : string -> M W json.

(** What a waiting task is resumed with when it is the only one and the
    client answers from the world [w]. *)
Definition next_outcome (w : W) (t : task) : option (outcome * W) :=
  match at_pc t with
  | Start | Relock => Some (Acquired, w)
  | Login | Relogin =>
      let (r, w') := Init.login client username w in
      Some (LoginReturned
              (match r with Ok l => Ok (Api.token l) | Raise e => Raise e end),
            w')
  | Fetch1 tok | Fetch2 tok =>
      let (r, w') := fetcher tok w in Some (FetchReturned r, w')
  | Done _ => None
  end.

(** The task is resumed until it is done, at most [fuel] times. *)
Fixpoint drive (fuel : nat) (w : W) (sh : shared) (t : task)
  : W * shared * task :=
  match fuel with
  | O => (w, sh, t)
  | S fuel' =>
      match next_outcome w t with
      | None => (w, sh, t)
      | Some (o, w') =>
          match task_step sh t o with
          | Some (sh', t') => drive fuel' w' sh' t'
          | None => (w, sh, t)
          end
      end
  end.

End Alone.

(** Two callers on an empty cache whose first token the server rejects:
    each of them forces a login of its own. *)
Definition two_rejected_callers : list event :=
  [ (0, Acquired); (0, LoginReturned (Ok "t1")); (1, Acquired);
    (0, FetchReturned (Raise (StokerCloudAuthError "Unauthorized")));
    (1, FetchReturned (Raise (StokerCloudAuthError "Unauthorized")));
    (0, Acquired); (0, LoginReturned (Ok "t2"));
    (1, Acquired); (1, LoginReturned (Ok "t3"));
    (0, FetchReturned (Ok JNull)); (1, FetchReturned (Ok JNull)) ].



End Conc.

(* ===================================================================== *)
(** ** The specification's wording, as definitions *)
(* ===================================================================== *)

Module Spec.

(** The object elements of an array. *)
Definition objects_of (value : list json) : list dict :=
  omap (fun item => match item with JObj d => Some d | _ => None end) value.

Definition as_list (v : json) : list json :=
  match v with JArr items => items | _ => [] end.

(** Event extraction as the specification words it: the payload itself if
    it is an array; else the value of the first candidate field that is an
    array; else the first value, in iteration order, that is an array with
    at least one object element; else nothing.  Non-object elements of the
    chosen array are dropped. *)
Definition extract_events_spec (payload : json) : list dict :=
  match payload with
  | JArr items => objects_of items
  | JObj d =>
      match List.find (fun key => is_list (get d key))
              ["events"; "eventdata"; "data"; "items"; "rows"; "log"] with
      | Some key => objects_of (as_list (get d key))
      | None =>
          match List.find
                  (fun v => is_list v && existsb is_dict (as_list v))
                  (values d) with
          | Some v => objects_of (as_list v)
          | None => []
          end
      end
  | _ => []
  end.


(** A copy keeps every key/value pair of the record it was made from. *)
Definition keeps_pairs (event out : dict) : Prop :=
  forall k v, dict_get event k = Some v -> dict_get out k = Some v.

(** A field [k] is translated to [text] when its value is a string that the
    table maps to [text]. *)
Definition translated (t : Api.table) (items : dict) (k text : string) : Prop :=
  exists v, In (k, JStr v) items /\ Api.table_get t v = Some text.


(** The token the guarded section hands to the first attempt, and the world
    after it: the cached token, or the token of a successful login. *)
Definition lazy_token {W} (client : Init.Client W) (username : string)
    (s0 : Init.state W) (t1 : string) (w1 : W) : Prop :=
  match Init.token s0 with
  | Some t => t1 = t /\ w1 = Init.world s0
  | None =>
      exists r, Init.login client username (Init.world s0) = (Ok r, w1)
                /\ t1 = Api.token r
  end.

(** The logins of the guarded section: one when nothing is cached. *)
Definition lazy_calls {W} (s0 : Init.state W) : list Init.call :=
  match Init.token s0 with Some _ => [] | None => [Init.CLogin] end.


End Spec.

(* ===================================================================== *)
(** ** A scripted server, for running the client on concrete exchanges *)
(* ===================================================================== *)

Module Script.

(** The world is the list of the answers the server will give, in order;
    each request consumes one. *)
Definition world : Type := list (result json).

Definition session (method url : string) (params : dict) : M world json :=
  fun w =>
    match w with
    | [] => (Raise (ClientError "connection closed"), [])
    | r :: w' => (r, w')
    end.

(** The client as [api.py] binds its names. *)
Definition client : Init.Client world :=
  Init.StokerCloudClient session Api.api_globals.

Definition login_ok (tok : string) : result json :=
  Ok (JObj [("status", JInt 0); ("token", JStr tok)]).

Definition rejected : result json :=
  Ok (JObj [("status", JInt 401); ("message", JStr "Unauthorized")]).


Definition controller_data : json :=
  JObj [("miscdata", JObj []); ("serial", JStr "12345")].

Definition fresh (w : world) : Init.state world := Init.mkState None w [].

End Script.

(* ===================================================================== *)
(** ** sensor.py: values and attributes of the entities *)
(* ===================================================================== *)

Module Entities.

(** Python's truth value of a JSON value. *)
Definition truthy (v : json) : bool :=
  match v with
  | JNull => false
  | JBool b => b
  | JInt z => negb (z =? 0)
  | JStr s => negb (String.eqb s "")
  | JArr items => match items with [] => false | _ => true end
  | JObj fields => match fields with [] => false | _ => true end
  end.

(** [a or b] *)
Definition py_or (a b : json) : json := if truthy a then a else b.

(** The loop of [_find_id] over a list: the first item whose [str] of its
    id is the wanted one; an item that is no dict has no [get]. *)
Fixpoint find_in (items : list json) (wanted_id : string)
  : result (option dict) :=
  match items with
  | [] => Ok None
  | JObj item :: rest =>
      if String.eqb (str (get item "id")) wanted_id then Ok (Some item)
      else find_in rest wanted_id
  | item :: _ => Raise (Api.no_get item)
  end.

(** [_find_id]; [items] is whatever [data.get(section)] gave.  A dict is
    iterated by its keys and a string by its characters, which are strings
    and have no [get]; a number cannot be iterated (a [TypeError]). *)
Definition _find_id (items : json) (wanted_id : string)
  : result (option dict) :=
  if negb (truthy items) then Ok None
  else
    match items with
    | JArr l => find_in l wanted_id
    | JObj ((k, _) :: _) => Raise (Api.no_get (JStr k))
    | JStr s => Raise (Api.no_get (JStr s))
    | _ => Raise (OtherError ("'" +:+ Api.type_name items
                              +:+ "' object is not iterable"))
    end.

(** [if not item: return None] holds for [None] and for the empty dict. *)
Definition value_of (item : option dict) : json :=
  match item with
  | None | Some [] => JNull
  | Some d => get d "value"
  end.

Definition _get_list_value (data : dict) (section wanted_id : string)
  : result json :=
  match _find_id (get data section) wanted_id with
  | Ok item => Ok (value_of item)
  | Raise e => Raise e
  end.

Definition _get_front_value (data : dict) (front_id : string) : result json :=
  match _find_id (get data "frontdata") front_id with
  | Ok item => Ok (value_of item)
  | Raise e => Raise e
  end.

Definition _get_left_output_value (data : dict) (output_id : string) : json :=
  match get_default data "leftoutput" (JObj []) with
  | JObj leftoutput =>
      match get_default leftoutput output_id (JObj []) with
      | JObj output => get output "val"
      | _ => JNull
      end
  | _ => JNull
  end.

(** *** The table [SENSORS] *)

(** The body of a [value_fn]: the helper it calls and with what. *)
Inductive source : Type :=
| ListValue (section wanted_id : string)
| FrontValue (front_id : string)
| LeftOutput (output_id : string).

(** One [StokerCloudSensorSpec]: the key and the name of its description,
    the source its [value_fn] reads, and whether the [value_fn] wraps the
    reading in [_as_float]. *)
Record sensor_spec : Type := mkSpec {
  key : string;
  name : string;
  reads : source;
  as_float : bool
}.

Definition SENSORS : list sensor_spec :=
  [ mkSpec "weather_city" "Weather city" (ListValue "weatherdata" "weather-city") false;
    mkSpec "outdoor_temperature" "Outdoor temperature" (ListValue "weatherdata" "1") true;
    mkSpec "wind_speed" "Wind speed" (ListValue "weatherdata" "2") true;
    mkSpec "wind_direction" "Wind direction" (ListValue "weatherdata" "3") false;
    mkSpec "clouds" "Clouds" (ListValue "weatherdata" "9") true;
    mkSpec "chimney_smoke_temperature" "Chimney/smoke temperature" (ListValue "boilerdata" "3") true;
    mkSpec "power_output" "Power output" (ListValue "boilerdata" "5") true;
    mkSpec "power_percentage" "Power (%)" (ListValue "boilerdata" "4") true;
    mkSpec "photo_sensor_light" "Photo sensor (light)" (ListValue "boilerdata" "6") true;
    mkSpec "oxygen" "Oxygen (%)" (ListValue "boilerdata" "12") true;
    mkSpec "oxygen_reference" "Oxygen reference" (FrontValue "refoxygen") true;
    mkSpec "o2_low_regulation" "O2 low regulation (%)" (ListValue "boilerdata" "14") true;
    mkSpec "o2_mid_regulation" "O2 mid regulation (%)" (ListValue "boilerdata" "15") true;
    mkSpec "o2_high_regulation" "O2 high regulation (%)" (ListValue "boilerdata" "16") true;
    mkSpec "online_time" "Online time" (ListValue "boilerdata" "9") true;
    mkSpec "boiler_temperature" "Boiler temperature" (FrontValue "boilertemp") true;
    mkSpec "wanted_boiler_temperature" "Wanted boiler temperature" (FrontValue "-wantedboilertemp") true;
    mkSpec "pump_output" "Pump output" (LeftOutput "output-2") false;
    mkSpec "compressor" "Compressor" (LeftOutput "output-7") true;
    mkSpec "hopper_content" "Hopper content" (FrontValue "hoppercontent") true;
    mkSpec "auger_capacity" "Auger capacity" (ListValue "hopperdata" "2") true;
    mkSpec "consumption_last_24h" "Consumption last 24 h" (ListValue "hopperdata" "3") true;
    mkSpec "consumption_total" "Consumption total" (ListValue "hopperdata" "4") true;
    mkSpec "power_10pct" "Power 10%" (ListValue "hopperdata" "7") true;
    mkSpec "power_100pct" "Power 100%" (ListValue "hopperdata" "8") true;
    mkSpec "dhw_temperature" "DHW temperature" (FrontValue "dhw") true;
    mkSpec "wanted_dhw_temperature" "Wanted DHW temperature" (FrontValue "dhwwanted") true;
    mkSpec "dhw_difference" "DHW difference" (ListValue "dhwdata" "3") true ].

(** What the [value_fn] of a sensor reads from the snapshot, before
    [_as_float] where the sensor applies it. *)
Definition reading (spec : sensor_spec) (data : dict) : result json :=
  match reads spec with
  | ListValue section wanted_id => _get_list_value data section wanted_id
  | FrontValue front_id => _get_front_value data front_id
  | LeftOutput output_id => Ok (_get_left_output_value data output_id)
  end.

(** [entry.unique_id or entry.entry_id] *)
Definition entry_uid (unique_id : option string) (entry_id : string) : string :=
  match unique_id with
  | Some u => if String.eqb u "" then entry_id else u
  | None => entry_id
  end.

(** The [_attr_unique_id] of the entities [async_setup_entry] adds: one per
    entry of [SENSORS], then the event log when there is an event
    coordinator. *)
Definition unique_ids (unique_id : option string) (entry_id : string)
    (event_coordinator : bool) : list string :=
  map (fun spec => entry_uid unique_id entry_id +:+ "_" +:+ key spec) SENSORS
  ++ (if event_coordinator
      then [entry_uid unique_id entry_id +:+ "_event_log"] else []).

(** *** [device_info] (the same code in both entity classes) *)

Record DeviceInfo : Type := mkDeviceInfo {
  identifier : string * string;   (* the one element of [identifiers] *)
  device_name : string;
  manufacturer : string;
  model : string
}.

(** [coordinator.data or {}]: the snapshot, or nothing yet. *)
Definition data_or_empty (data : option dict) : dict :=
  match data with Some d => d | None => [] end.

Definition device_info (coordinator_data : option dict) : option DeviceInfo :=
  let data := data_or_empty coordinator_data in
  let serial := get data "serial" in
  let alias := get data "alias" in
  if negb (truthy serial) && negb (truthy alias) then None
  else
    Some {| identifier := ("stokercloud", str (py_or serial alias));
            device_name :=
              if truthy serial && truthy alias
              then str serial +:+ " / " +:+ str alias
              else str (py_or serial alias);
            manufacturer := "StokerCloud";
            model := str (py_or (get data "model") (JStr "pellet furnace")) |}.

(** *** [StokerCloudEventLogSensor] *)

Definition native_value (coordinator_data : option dict) : option Z :=
  let data := data_or_empty coordinator_data in
  match get data "events" with
  | JArr events => Some (Z.of_nat (length events))
  | _ => None
  end.

(** The loop [for key in (...): if key in data: attrs[key] = data[key]]. *)
Fixpoint copy_keys (data attrs : dict) (ks : list string) : dict :=
  match ks with
  | [] => attrs
  | k :: rest =>
      copy_keys data
        (if has_key data k then dict_set attrs k (get data k) else attrs) rest
  end.

Definition extra_state_attributes (coordinator_data : option dict) : dict :=
  let data := data_or_empty coordinator_data in
  match get data "events" with
  | JArr events =>
      let cleaned := Api.dict_items events in
      let (truncated_events, truncated) :=
        Sensor._truncate_events_for_attributes cleaned in
      let attrs :=
        [("events", JArr (map JObj truncated_events));
         ("events_total", JInt (Z.of_nat (length cleaned)));
         ("events_truncated", JBool truncated)] in
      copy_keys data attrs
        ["count"; "offset"; "translation_language"; "translations_loaded"]
  | _ => []
  end.

End Entities.

(* ===================================================================== *)
(** ** config_flow.py *)
(* ===================================================================== *)

Module ConfigFlow.

(** [str.isspace] on a code point below 256. *)
Definition is_space (c : ascii) : bool :=
  let n := nat_of_ascii c in
  (((9 <=? n) && (n <=? 13)) || ((28 <=? n) && (n <=? 32))
   || (n =? 133) || (n =? 160))%nat.

Fixpoint lstrip (s : string) : string :=
  match s with
  | String c s' => if is_space c then lstrip s' else s
  | EmptyString => EmptyString
  end.

(** The text without its trailing white space. *)
Fixpoint rstrip (s : string) : string :=
  match s with
  | EmptyString => EmptyString
  | String c s' =>
      match rstrip s' with
      | EmptyString => if is_space c then EmptyString else String c EmptyString
      | r => String c r
      end
  end.

(** [s.strip()] *)
Definition strip (s : string) : string := rstrip (lstrip s).

(** [info.get] and the like on a value that has to be a dict. *)
Definition as_dict (v : json) : result dict :=
  match v with
  | JObj d => Ok d
  | _ => Raise (Api.no_get v)
  end.

(** How a step of the flow ends. *)
Inductive flow_result : Type :=
| ShowForm (errors : list (string * string))
| Abort (reason : string)
| CreateEntry (unique_id title username : string).

Section Flow.

Context {W : Type}.
Variable client : Init.Client W.

(** What the framework answers to [_abort_if_unique_id_configured]: whether
    an entry with this unique id exists already. *)
Variable configured : string -> bool.

Definition _validate_input (username : string) : M W dict :=
  login <- Init.login client username ;;
  data <- Init.fetch_controller_data client (Api.token login) ;;
  d <- lift (as_dict data) ;;
  let serial := get d "serial" in
  let alias := get d "alias" in
  ret [("serial", serial); ("alias", alias)].

(** [async_step_user]; [user_input] holds the text of the username field
    once the form was submitted. *)
Definition async_step_user (user_input : option string) : M W flow_result :=
  match user_input with
  | None => ret (ShowForm [])
  | Some text =>
      let username := strip text in
      fun w =>
        match _validate_input username w with
        | (Raise e, w') =>
            if is_StokerCloudAuthError e then (Ok (ShowForm [("base", "auth")]), w')
            else if is_StokerCloudError e
            then (Ok (ShowForm [("base", "cannot_connect")]), w')
            else (Ok (ShowForm [("base", "unknown")]), w')
        | (Ok info, w') =>
            let unique_id :=
              str (Entities.py_or (get info "serial") (JStr username)) in
            if configured unique_id then (Ok (Abort "already_configured"), w')
            else
              let title :=
                if Entities.truthy (get info "serial")
                   && Entities.truthy (get info "alias")
                then str (get info "serial") +:+ " / " +:+ str (get info "alias")
                else username in
              (Ok (CreateEntry unique_id title username), w')
        end
  end.

End Flow.

End ConfigFlow.

(* ===================================================================== *)
(** ** Vocabulary of the further properties *)
(* ===================================================================== *)

Module Terms.

(** The exceptions the session raises by its contract: [aiohttp.ClientError]
    for a transport failure, [ValueError] for a body that is not JSON. *)
Definition transport_exn (e : exn) : bool :=
  match e with
  | ClientError _ | ValueError _ => true
  | _ => false
  end.

(** A session that, asked from the world [w], raises nothing else. *)
Definition well_behaved {W : Type}
    (session : string -> string -> dict -> M W json) (w : W) : Prop :=
  forall method url params e w',
    session method url params w = (Raise e, w') -> transport_exn e = true.

(** The statuses the shared classification lets through. *)
Definition status_ok (status : json) : Prop :=
  In status [JNull; JBool false; JInt 0; JStr "0"].

(** *** Counting over the concurrent callers *)

(** The sum of a measure over the tasks. *)
Definition total (f : Conc.task -> nat) (l : list Conc.task) : nat :=
  foldr (fun t acc => (f t + acc)%nat) 0%nat l.

(** The logins a task can still issue from where it waits: the lazy one
    and the forced one before the guarded section, the forced one until
    the second guarded section is entered. *)
Definition logins_left (t : Conc.task) : nat :=
  match Conc.at_pc t with
  | Conc.Start => 2
  | Conc.Login | Conc.Fetch1 _ | Conc.Relock => 1
  | _ => 0
  end%nat.

(** Whether the first attempt of the task can still be rejected. *)
Definition rejections_left (t : Conc.task) : nat :=
  match Conc.at_pc t with
  | Conc.Start | Conc.Login | Conc.Fetch1 _ => 1
  | _ => 0
  end%nat.

(** A task whose first attempt was rejected and that has not yet issued
    its forced login. *)
Definition owes_login (t : Conc.task) : nat :=
  match Conc.at_pc t with Conc.Relock => 1 | _ => 0 end%nat.

(** What accounts for the logins of callers that started on an empty
    cache: the rejected attempts, the failed logins, and the one login that
    fills the cache, once it is issued. *)
Definition login_causes (sh : Conc.shared) : nat :=
  (Conc.rejections sh + Conc.failed_logins sh
   + match Conc.token sh with
     | Some _ => 1
     | None => if Conc.locked sh then 1 else 0
     end)%nat.

(** Someone holds the lock when it is taken. *)
Definition lock_has_holder (s : Conc.system) : Prop :=
  Conc.locked (Conc.vars s) = true ->
  exists j t, Conc.tasks s !! j = Some t /\ Conc.login_in_flight t = true.

End Terms.

(* ===================================================================== *)
(** ** Exchanges with the scripted server *)
(* ===================================================================== *)

Module Scenario.

(** An event log refresh on a cache that holds a token: the server answers
    the event request with an object whose list is under [log]. *)
Definition event_refresh_start : Init.state Script.world :=
  Init.mkState (Some "t0")
    [Ok (JObj [("log", JArr [JObj [("type", JStr "IGN")]; JInt 3])])] [].

Definition event_refresh : result dict * Init.state Script.world :=
  Init._async_update_event_data Script.client "user"
    (Some [("IGN", "Ignition")]) event_refresh_start.

(** The batch of that refresh. *)
Definition event_batch : dict :=
  match fst event_refresh with
  | Ok data => data
  | Raise _ => []
  end.

(** Where the two callers whose first token is rejected end up. *)
Definition two_rejected_callers_end : Conc.system :=
  Eval vm_compute in
    default (Conc.init None 0)
      (Conc.run Conc.two_rejected_callers (Conc.init None 2)).



(** Three callers on an empty cache, the first of them waiting for its
    login while the other two wait for the lock. *)
Definition login_pending : Conc.system :=
  Eval vm_compute in
    default (Conc.init None 0)
      (Conc.run [(0%nat, Conc.Acquired)] (Conc.init None 3)).

End Scenario.

(* ##################################################################### *)
(** * Properties *)
(* ##################################################################### *)

(* ===================================================================== *)
(** ** Properties of the truncation (sensor.py) *)
(* ===================================================================== *)

Module SensorFacts.
Import Sensor.

Lemma search_unfold limit events low high best :
  search limit events low high best =
  if low <=? high then
    let mid := (low + high) / 2 in
    if _size (slice_to events mid) <=? limit
    then search limit events (mid + 1) high mid
    else search limit events low (mid - 1) best
  else best.
Proof.
  rewrite search_equation_1. unfold search_unfold_clause_1, inspect.
  destruct (low <=? high); reflexivity.
Qed.

Lemma slice_to_firstn {A} (l : list A) (k : nat) :
  slice_to l (Z.of_nat k) = firstn k l.
Proof.
  unfold slice_to. destruct (Z.ltb_spec (Z.of_nat k) 0); [lia|].
  now rewrite Nat2Z.id.
Qed.

(** *** The encoded size grows with the prefix *)

Lemma length_append (a b : string) :
  String.length (a +:+ b) = (String.length a + String.length b)%nat.
Proof. induction a as [|c a IH]; simpl; [reflexivity | now rewrite IH]. Qed.

Lemma concat_prefix_length sep (a c : list string) :
  (String.length (String.concat sep a)
   <= String.length (String.concat sep (a ++ c)))%nat.
Proof.
  induction a as [|x a IH]; simpl; [lia|].
  destruct a as [|y a]; simpl in *.
  - destruct c; simpl; rewrite ?length_append; lia.
  - rewrite !length_append. lia.
Qed.

Lemma size_eq (a : list dict) :
  _size a
  = Z.of_nat (String.length (String.concat "," (map dumps (map JObj a))) + 2).
Proof.
  unfold _size.
  change (dumps (JArr (map JObj a)))
    with ("[" +:+ String.concat "," (map dumps (map JObj a)) +:+ "]").
  rewrite !length_append. simpl String.length. lia.
Qed.

Lemma size_app (a c : list dict) : _size a <= _size (a ++ c).
Proof.
  rewrite !size_eq, !map_app.
  pose proof (concat_prefix_length "," (map dumps (map JObj a))
                (map dumps (map JObj c))).
  lia.
Qed.

Lemma size_firstn_mono (events : list dict) (j k : nat) :
  (j <= k)%nat -> _size (firstn j events) <= _size (firstn k events).
Proof.
  intros Hjk.
  replace (firstn j events) with (firstn j (firstn k events))
    by (rewrite firstn_firstn; f_equal; lia).
  rewrite <- (firstn_skipn j (firstn k events)) at 2.
  apply size_app.
Qed.

(** *** The binary search *)

Section Search.

Variable limit : Z.
Variable events : list dict.

Local Abbreviation n := (Z.of_nat (length events)).
Local Abbreviation fits := (Sensor.fits limit events).

Lemma fits_mono (j k : Z) : 0 <= j <= k -> fits k -> fits j.
Proof.
  unfold fits. intros Hjk Hk.
  rewrite <- (Z2Nat.id j), <- (Z2Nat.id k) in * by lia.
  rewrite slice_to_firstn in *.
  pose proof (size_firstn_mono events (Z.to_nat j) (Z.to_nat k)). lia.
Qed.

(** What the loop establishes from any state the search reaches. *)
Lemma search_spec (low high best : Z) :
  1 <= low <= high + 1 -> high <= n ->
  (forall k, high < k <= n -> ~ fits k) ->
  (low = 1 /\ best = 1) \/ (1 < low /\ best = low - 1 /\ fits best) ->
  let r := search limit events low high best in
  1 <= r /\ (r <= n \/ r = 1) /\
  (forall k, r < k <= n -> ~ fits k) /\
  (fits r \/ (r = 1 /\ forall k, 1 <= k <= n -> ~ fits k)).
Proof.
  remember (Z.to_nat (high + 1 - low)) as m eqn:Hm.
  revert low high best Hm.
  induction m as [m IH] using lt_wf_ind.
  intros low high best Hm Hlow Hhigh Habove Hbest. cbv zeta.
  rewrite search_unfold.
  destruct (Z.leb_spec low high) as [Hle|Hgt].
  - cbv zeta.
    assert (Hmid : low <= (low + high) / 2 <= high).
    { split; [apply Z.div_le_lower_bound | apply Z.div_le_upper_bound]; lia. }
    set (mid := (low + high) / 2) in *.
    destruct (Z.leb_spec (_size (slice_to events mid)) limit) as [Hfit|Hnofit].
    + apply (IH (Z.to_nat (high + 1 - (mid + 1)))); try lia; auto.
      right. repeat split; [lia|lia|]. replace (mid + 1 - 1) with mid by lia.
      exact Hfit.
    + apply (IH (Z.to_nat (mid - 1 + 1 - low))); try lia; auto.
      intros k Hk Hfk.
      destruct (Z.le_gt_cases k high) as [Hkh|Hkh].
      * assert (fits mid) by (apply (fits_mono mid k); [lia|exact Hfk]).
        unfold fits in *. lia.
      * apply (Habove k); [lia|exact Hfk].
  - assert (low = high + 1) by lia. subst low.
    destruct Hbest as [[H1 ->]|(Hlt & -> & Hfit)].
    + assert (high = 0) by lia. subst high.
      repeat split; try lia.
      * intros k Hk. apply Habove. lia.
      * right. split; [reflexivity|]. intros k Hk. apply Habove. lia.
    + replace (high + 1 - 1) with high in * by lia.
      repeat split; try lia; auto.
Qed.

End Search.

Lemma truncate_to_nonempty (limit : Z) (events : list dict) :
  events <> [] ->
  truncate_to limit events =
  if _size events <=? limit then (events, false)
  else (slice_to events (search limit events 1 (Z.of_nat (length events)) 1),
        true).
Proof. destruct events; [congruence | reflexivity]. Qed.

(** The result of the truncation for any budget: the list is a prefix of
    length [k >= 1]; unless no prefix fits, the prefix fits and no longer
    one does; the flag is raised exactly when the whole list does not fit. *)
Lemma truncate_to_spec (limit : Z) (events : list dict) :
  events <> [] ->
  exists k : nat,
    (1 <= k <= length events)%nat /\
    truncate_to limit events
      = (firstn k events, negb (_size events <=? limit)) /\
    (_size (firstn 1 events) <= limit ->
       _size (firstn k events) <= limit /\
       forall j : nat, (k < j <= length events)%nat ->
                       limit < _size (firstn j events)) /\
    (limit < _size (firstn 1 events) -> k = 1%nat).
Proof.
  intros Hne. rewrite truncate_to_nonempty by assumption.
  assert (Hlen : (1 <= length events)%nat)
    by (destruct events; [congruence | simpl; lia]).
  destruct (Z.leb_spec (_size events) limit) as [Hfit|Hnofit].
  - exists (length events). rewrite firstn_all.
    split; [lia|]. split; [reflexivity|]. split.
    + intros _. split; [assumption|]. intros j Hj. lia.
    + intros H1. pose proof (size_firstn_mono events 1 (length events) Hlen) as Hm.
      rewrite firstn_all in Hm. lia.
  - pose proof (search_spec limit events 1 (Z.of_nat (length events)) 1
                  ltac:(lia) ltac:(lia) ltac:(intros; lia)
                  ltac:(left; split; reflexivity)) as Hs.
    cbv zeta in Hs. unfold fits in Hs.
    set (r := search limit events 1 (Z.of_nat (length events)) 1) in *.
    destruct Hs as (Hr1 & Hrn & Habove & Hr).
    exists (Z.to_nat r).
    assert (Hrk : r = Z.of_nat (Z.to_nat r)) by lia.
    assert (Hsl : slice_to events r = firstn (Z.to_nat r) events)
      by (rewrite Hrk at 1; apply slice_to_firstn).
    rewrite Hsl. rewrite Hsl in Hr.
    destruct (Z.leb_spec (_size events) limit) as [|_]; [lia|].
    split; [lia|]. split; [reflexivity|]. split.
    + intros H1. split.
      * destruct Hr as [Hr|[_ Hnone]]; [exact Hr|].
        exfalso. apply (Hnone 1); [lia|].
        change (_size (slice_to events (Z.of_nat 1)) <= limit).
        now rewrite slice_to_firstn.
      * intros j Hj.
        destruct (Z.lt_ge_cases limit (_size (firstn j events))) as [|Hc];
          [assumption|].
        exfalso. apply (Habove (Z.of_nat j)); [lia|].
        rewrite slice_to_firstn. lia.
    + intros H1. destruct Hr as [Hr|[Hr _]]; [|lia].
      pose proof (size_firstn_mono events 1 (Z.to_nat r)). lia.
Qed.



Lemma truncate_to_idempotent (limit : Z) (events : list dict) :
  fst (truncate_to limit (fst (truncate_to limit events)))
  = fst (truncate_to limit events).
Proof.
  destruct events as [|e es]; [reflexivity|].
  set (events := e :: es).
  assert (Hne : events <> []) by discriminate.
  destruct (truncate_to_spec limit events Hne) as (k & Hk & -> & Hfit & Hover).
  cbn [fst].
  assert (Hout : firstn k events <> []).
  { unfold events. destruct k; [lia|]. discriminate. }
  destruct (Z.le_gt_cases (_size (firstn 1 events)) limit) as [H1|H1].
  - rewrite truncate_to_nonempty by assumption.
    destruct (Hfit H1) as [Hle _].
    destruct (Z.leb_spec (_size (firstn k events)) limit); [reflexivity|lia].
  - rewrite (Hover ltac:(lia)) in *.
    destruct (truncate_to_spec limit (firstn 1 events) Hout)
      as (k' & Hk' & -> & _).
    cbn [fst]. unfold events in *. simpl in Hk'.
    assert (k' = 1%nat) as -> by lia. reflexivity.
Qed.

(** C8: truncating the list that the truncation returned gives that list
    again. *)
Theorem truncate_events_idempotent (events : list dict) :
  fst (_truncate_events_for_attributes
         (fst (_truncate_events_for_attributes events)))
  = fst (_truncate_events_for_attributes events).
Proof. apply truncate_to_idempotent. Qed.

(** C10: on the empty list the truncation returns the empty list and the
    flag [false]; the search is not entered. *)
Theorem truncate_events_empty :
  _truncate_events_for_attributes [] = ([], false).
Proof. reflexivity. Qed.

(** The search at work, with a budget of 40 characters: each record
    takes 14 and two of them, with the brackets and the comma, 31. *)
Example truncate_to_keeps_two :
  truncate_to 40
    [[("type", JStr "IGN")]; [("type", JStr "RUN")]; [("type", JStr "OFF")]]
  = ([[("type", JStr "IGN")]; [("type", JStr "RUN")]], true).
Proof. reflexivity. Qed.

(** A single record that does not fit is returned, with the flag. *)
Example truncate_to_keeps_one :
  truncate_to 10 [[("type", JStr "IGN")]; [("type", JStr "RUN")]]
  = ([[("type", JStr "IGN")]], true).
Proof. reflexivity. Qed.

End SensorFacts.

(* ===================================================================== *)
(** ** Properties of the client (api.py) *)
(* ===================================================================== *)

Module ApiFacts.
Import Api Spec.

(** *** Response classification *)








(** *** Event extraction *)

Lemma dict_items_objects_of (value : list json) :
  dict_items value = objects_of value.
Proof.
  induction value as [|item value IH]; [reflexivity|].
  destruct item; simpl; rewrite IH; reflexivity.
Qed.

Lemma scan_candidates_find (d : dict) (cands : list string) :
  scan_candidates d cands =
  match List.find (fun key => is_list (get d key)) cands with
  | Some key => Some (objects_of (as_list (get d key)))
  | None => None
  end.
Proof.
  induction cands as [|key cands IH]; [reflexivity|].
  simpl. destruct (get d key) eqn:Hget; simpl; try exact IH.
  now rewrite Hget, dict_items_objects_of.
Qed.

Lemma scan_values_find (vals : list json) :
  scan_values vals =
  match List.find (fun v => is_list v && existsb is_dict (as_list v)) vals with
  | Some v => Some (objects_of (as_list v))
  | None => None
  end.
Proof.
  induction vals as [|v vals IH]; [reflexivity|].
  destruct v; simpl; try exact IH.
  destruct (existsb is_dict items); [|exact IH].
  now rewrite dict_items_objects_of.
Qed.

(** C4: event extraction computes what the specification describes, for
    every payload: the object elements of the payload if it is an array;
    else of the first of events, eventdata, data, items, rows, log that
    holds an array; else of the first value, in iteration order, that is an
    array with an object element; else the empty list.  On the example
    [{"eventdata": [{"a":1}, "skip", {"b":2}]}] it returns
    [[{"a":1}, {"b":2}]].  A named field that holds an array is taken
    before any other value, also when it holds no object, and the names are
    tried in the order given, not in the order of the payload. *)
Theorem extract_events_as_specified :
  (forall payload : json,
     _extract_events payload = extract_events_spec payload) /\
  _extract_events
    (JObj [("eventdata",
            JArr [JObj [("a", JInt 1)]; JStr "skip"; JObj [("b", JInt 2)]])])
  = [[("a", JInt 1)]; [("b", JInt 2)]] /\
  _extract_events
    (JObj [("events", JArr [JInt 1; JInt 2]);
           ("data", JArr [JObj [("a", JInt 1)]])])
  = [] /\
  _extract_events
    (JObj [("log", JArr [JObj [("a", JInt 1)]]);
           ("rows", JArr [JObj [("b", JInt 2)]])])
  = [[("b", JInt 2)]] /\
  _extract_events
    (JObj [("other", JArr [JInt 1]); ("more", JArr [JInt 2; JObj []])])
  = [[]].
Proof.
  split; [|repeat split].
  intros [| | | |items|d]; try reflexivity.
  - apply dict_items_objects_of.
  - unfold _extract_events, extract_events_spec.
    rewrite scan_candidates_find, scan_values_find.
    unfold candidate_keys.
    destruct (List.find _ ["events"; "eventdata"; "data"; "items"; "rows"; "log"]);
      [reflexivity|].
    destruct (List.find _ (values d)); reflexivity.
Qed.

(** *** Login *)

Section Login.

Context {W : Type}.
Variable session : string -> string -> dict -> M W json.

Lemma request_json_ok (method url : string) (params : dict) (payload : json)
    (w w' : W) :
  session method url params w = (Ok payload, w') ->
  _request_json session method url params w = (classify payload, w').
Proof.
  intros Hs. unfold _request_json, bind, try_except, lift. now rewrite Hs.
Qed.

(** In the namespace of [api.py] the name [LOGIN_PATH] is unbound: [login]
    raises before any request is sent. *)
Lemma login_name_error (username : string) (w : W) :
  login session api_globals username w = (Raise (NameError "LOGIN_PATH"), w).
Proof. reflexivity. Qed.

End Login.

(** C6: [login] as [api.py] is written, at answers of the server the claim
    is about.  Where the server would answer status 0 with a token, which
    the claim says [login] accepts, and where it would answer status 1,
    which the claim says [login] turns into the authentication error,
    [login] raises the [NameError] of [LOGIN_PATH] before it sends the
    request: the answer is still unread in the world.  The import list of
    [api.py] binds the path names of the other requests and not this one. *)
Theorem login_raises_before_request :
  login Script.session api_globals "user"
    [Ok (JObj [("status", JInt 0); ("token", JStr "abc")])]
  = (Raise (NameError "LOGIN_PATH"),
     [Ok (JObj [("status", JInt 0); ("token", JStr "abc")])]) /\
  login Script.session api_globals "user"
    [Ok (JObj [("status", JInt 1); ("message", JStr "Unknown user")])]
  = (Raise (NameError "LOGIN_PATH"),
     [Ok (JObj [("status", JInt 1); ("message", JStr "Unknown user")])]) /\
  load_name api_globals "LOGIN_PATH" = Raise (NameError "LOGIN_PATH") /\
  load_name api_globals "CONTROLLER_DATA_PATH" = Ok Const.CONTROLLER_DATA_PATH /\
  load_name api_globals "EVENT_DATA_PATH" = Ok Const.EVENT_DATA_PATH.
Proof. repeat split. Qed.

End ApiFacts.

(* ===================================================================== *)
(** ** Properties of the closures (__init__.py) *)
(* ===================================================================== *)

Module InitFacts.
Import Init Spec.

(** *** The token guard, one caller *)

Section Guard.

Context {W A : Type}.
Variable client : Client W.
Variable username : string.
Variable fetcher : string -> M W A.

(** The guarded section at the start of the wrapper. *)
Lemma guard_run (s0 : state W) (t1 : string) (w1 : W)
    (k : string -> M (state W) A) :
  lazy_token client username s0 t1 w1 ->
  (current_token <-
     (cached <- gets token ;;
      match cached with
      | None =>
          r <- logged CLogin (login client username) ;;
          _ <- set_token (Api.token r) ;;
          ret (Api.token r)
      | Some t => ret t
      end) ;;
   k current_token) s0
  = k t1 (mkState (Some t1) w1
            (calls s0 ++ lazy_calls s0)).
Proof.
  unfold lazy_token, lazy_calls, bind, gets, logged, set_token, modify, ret.
  destruct s0 as [[t|] w c]; simpl.
  - intros [-> ->]. now rewrite app_nil_r.
  - intros (r & -> & ->). reflexivity.
Qed.



(** The run of the wrapper when the first attempt raises the authentication
    error and the forced login succeeds. *)
Lemma retry_run (s0 : state W) (t1 m : string) (w1 w2 w3 : W)
    (r2 : Api.LoginResult) :
  lazy_token client username s0 t1 w1 ->
  fetcher t1 w1 = (Raise (StokerCloudAuthError m), w2) ->
  login client username w2 = (Ok r2, w3) ->
  _fetch_with_auth_retry client username fetcher s0
  = match fetcher (Api.token r2) w3 with
    | (Ok v, w4) =>
        (Ok v,
         mkState (Some (Api.token r2)) w4
           (calls s0 ++ lazy_calls s0
              ++ [CFetch t1; CLogin; CFetch (Api.token r2)]))
    | (Raise e, w4) =>
        (Raise (if is_StokerCloudAuthError e
                then ConfigEntryAuthFailed (exn_str e) else e),
         mkState (Some (Api.token r2)) w4
           (calls s0 ++ lazy_calls s0
              ++ [CFetch t1; CLogin; CFetch (Api.token r2)]))
    end.
Proof.
  intros Hlazy H1 H2. unfold _fetch_with_auth_retry.
  rewrite (guard_run s0 t1 w1 _ Hlazy).
  unfold try_except, logged, bind, set_token, modify, ret, raise.
  cbn [world token calls]. rewrite H1. cbn [is_StokerCloudAuthError].
  cbn [world token calls]. rewrite H2. cbn [world token calls].
  destruct (fetcher (Api.token r2) w3) as [[v|e] w4];
    rewrite <- ?app_assoc; cbn [app]; [reflexivity|].
  destruct (is_StokerCloudAuthError e); reflexivity.
Qed.





End Guard.


(** With the names [api.py] binds, the first call through the guard ends
    in the [NameError] of [login]; nothing is sent and no token is cached. *)
Example guard_with_unbound_login_path :
  _fetch_with_auth_retry Script.client "user"
    (fetch_controller_data Script.client)
    (Script.fresh [Script.login_ok "t1"; Ok Script.controller_data])
  = (Raise (NameError "LOGIN_PATH"),
     mkState None [Script.login_ok "t1"; Ok Script.controller_data] [CLogin]).
Proof. reflexivity. Qed.

(** *** Translation of the events *)

Lemma dict_get_set (d : dict) (k q : string) (v : json) :
  dict_get (dict_set d k v) q
  = if String.eqb k q then Some v else dict_get d q.
Proof.
  induction d as [|[k' v'] d IH]; simpl.
  - reflexivity.
  - destruct (String.eqb_spec k' k) as [->|Hne]; simpl.
    + destruct (String.eqb k q); reflexivity.
    + rewrite IH. destruct (String.eqb_spec k q) as [->|].
      * destruct (String.eqb_spec k' q); [congruence|reflexivity].
      * reflexivity.
Qed.

Lemma append_length (a b : string) :
  String.length (a +:+ b) = (String.length a + String.length b)%nat.
Proof. induction a as [|c a IH]; simpl; [reflexivity | now rewrite IH]. Qed.

Lemma append_inj_l (s a b : string) : a +:+ s = b +:+ s -> a = b.
Proof.
  revert b. induction a as [|c a IH]; intros [|c' b] H.
  - reflexivity.
  - apply (f_equal String.length) in H.
    rewrite !append_length in H. simpl in H. lia.
  - apply (f_equal String.length) in H.
    rewrite !append_length in H. simpl in H. lia.
  - change (String c (a +:+ s) = String c' (b +:+ s)) in H.
    injection H as -> H. f_equal. now apply IH.
Qed.

Lemma dict_get_In (d : dict) (k : string) (v : json) :
  dict_get d k = Some v -> In (k, v) d.
Proof.
  induction d as [|[k' v'] d IH]; simpl; [discriminate|].
  destruct (String.eqb_spec k' k) as [->|]; [|auto].
  intros [= ->]. now left.
Qed.

Lemma In_dict_get (d : dict) (k : string) (v : json) :
  dict_wf d -> In (k, v) d -> dict_get d k = Some v.
Proof.
  unfold dict_wf, keys.
  induction d as [|[k' v'] d IH]; simpl; [tauto|].
  intros Hnd [[= -> ->]|Hin].
  - now rewrite String.eqb_refl.
  - apply NoDup_cons in Hnd as [Hk Hnd].
    destruct (String.eqb_spec k' k) as [->|]; [|auto].
    exfalso. apply Hk. apply list_elem_of_In.
    change k with (fst (k, v)). now apply in_map.
Qed.

Section Translate.

Variable t : Api.table.

Lemma fold_untouched (items out : dict) (q : string) :
  (forall k text, translated t items k text -> q <> k +:+ "_translated") ->
  dict_get (fold_left (translate_field t) items out) q = dict_get out q.
Proof.
  revert out. induction items as [|[k v] items IH]; intros out Hq; simpl.
  - reflexivity.
  - rewrite IH.
    + unfold translate_field. simpl.
      destruct v as [| | |s| |]; try reflexivity.
      destruct (Api.table_get t s) as [text|] eqn:Ht; [|reflexivity].
      rewrite dict_get_set.
      destruct (String.eqb_spec (k +:+ "_translated") q) as [<-|]; [|reflexivity].
      exfalso. apply (Hq k text); [|reflexivity].
      exists s. split; [now left | assumption].
    + intros k' text (v' & Hin & Ht). apply (Hq k' text).
      exists v'. split; [now right|assumption].
Qed.

Lemma fold_written (items out : dict) (k text : string) :
  NoDup (keys items) ->
  translated t items k text ->
  dict_get (fold_left (translate_field t) items out) (k +:+ "_translated")
  = Some (JStr text).
Proof.
  revert out. induction items as [|[k0 v0] items IH]; intros out Hnd (v & Hin & Ht).
  - destruct Hin.
  - unfold keys in Hnd. simpl in Hnd. apply NoDup_cons in Hnd as [Hk0 Hnd].
    destruct Hin as [[= -> ->]|Hin].
    + simpl. rewrite fold_untouched.
      * unfold translate_field. simpl. rewrite Ht, dict_get_set.
        now rewrite String.eqb_refl.
      * intros k' text' (v' & Hin' & _) Heq. apply append_inj_l in Heq. subst k'.
        apply Hk0. apply list_elem_of_In.
        change k with (fst (k, JStr v')). now apply in_map.
    + simpl. apply IH; [exact Hnd|]. exists v. split; assumption.
Qed.

Lemma fold_unchanged (items out : dict) :
  (forall k text, ~ translated t items k text) ->
  fold_left (translate_field t) items out = out.
Proof.
  revert out. induction items as [|[k v] items IH]; intros out Hn; simpl.
  - reflexivity.
  - rewrite IH.
    + unfold translate_field. simpl.
      destruct v as [| | |s| |]; try reflexivity.
      destruct (Api.table_get t s) as [text|] eqn:Ht; [|reflexivity].
      exfalso. apply (Hn k text). exists s. split; [now left|assumption].
    + intros k' text (v' & Hin & Ht). apply (Hn k' text).
      exists v'. split; [now right|assumption].
Qed.

(** What the copy of one well-formed record holds. *)
Lemma translate_event_spec (event : dict) :
  dict_wf event ->
  (forall k v text,
     dict_get event k = Some (JStr v) -> Api.table_get t v = Some text ->
     dict_get (translate_event t event) (k +:+ "_translated")
     = Some (JStr text)) /\
  (forall q,
     (forall k v text,
        dict_get event k = Some (JStr v) -> Api.table_get t v = Some text ->
        q <> k +:+ "_translated") ->
     dict_get (translate_event t event) q = dict_get event q) /\
  ((forall k v, dict_get event k = Some (JStr v) -> Api.table_get t v = None) ->
   translate_event t event = event).
Proof.
  intros Hwf. unfold translate_event. split; [|split].
  - intros k v text Hget Ht. apply fold_written; [exact Hwf|].
    exists v. split; [now apply dict_get_In | assumption].
  - intros q Hq. apply fold_untouched.
    intros k text (v & Hin & Ht). apply (Hq k v text); [|assumption].
    now apply In_dict_get.
  - intros Hnone. apply fold_unchanged.
    intros k text (v & Hin & Ht).
    rewrite (Hnone k v) in Ht; [discriminate|]. now apply In_dict_get.
Qed.

End Translate.

(** C5, the claim as stated fails: a record that already has a field named
    like the added one does not keep that field's value in the copy. *)
Lemma apply_translations_overwrites :
  ~ Forall2 keeps_pairs
      [[("type", JStr "IGN"); ("type_translated", JStr "old")]]
      (_apply_translations (Some [("IGN", "Ignition")])
         [[("type", JStr "IGN"); ("type_translated", JStr "old")]])
  /\ _apply_translations (Some [("IGN", "Ignition")])
       [[("type", JStr "IGN"); ("type_translated", JStr "old")]]
     = [[("type", JStr "IGN"); ("type_translated", JStr "Ignition")]].
Proof.
  split; [|reflexivity].
  intros H. apply Forall2_cons_1 in H as [H _].
  specialize (H "type_translated" (JStr "old") eq_refl).
  vm_compute in H. discriminate.
Qed.

(** C5, amended: for every list of well-formed records and every table,
    the result has one record per input record, and in each of them every
    field [k] whose value is a string found in the table gives the entry
    [k_translated] holding the table's text; every key that is not such a
    [k_translated] has the value it has in the input record (present or
    absent alike); a record without a matching string field is returned
    unchanged; and with an empty or absent table the list is returned as it
    is. *)
Theorem apply_translations_spec (translations : option Api.table)
    (events : list dict) :
  Forall dict_wf events ->
  let t := default [] translations in
  (translations = None \/ translations = Some [] ->
   _apply_translations translations events = events) /\
  Forall2
    (fun event out =>
       (forall k v text,
          dict_get event k = Some (JStr v) -> Api.table_get t v = Some text ->
          dict_get out (k +:+ "_translated") = Some (JStr text)) /\
       (forall q,
          (forall k v text,
             dict_get event k = Some (JStr v) -> Api.table_get t v = Some text ->
             q <> k +:+ "_translated") ->
          dict_get out q = dict_get event q) /\
       ((forall k v, dict_get event k = Some (JStr v) ->
                     Api.table_get t v = None) ->
        out = event))
    events (_apply_translations translations events).
Proof.
  intros Hwf. cbv zeta. split.
  - intros [-> | ->]; reflexivity.
  - assert (Hmap : Forall2
      (fun event out =>
         (forall k v text,
            dict_get event k = Some (JStr v) ->
            Api.table_get (default [] translations) v = Some text ->
            dict_get out (k +:+ "_translated") = Some (JStr text)) /\
         (forall q,
            (forall k v text,
               dict_get event k = Some (JStr v) ->
               Api.table_get (default [] translations) v = Some text ->
               q <> k +:+ "_translated") ->
            dict_get out q = dict_get event q) /\
         ((forall k v, dict_get event k = Some (JStr v) ->
                       Api.table_get (default [] translations) v = None) ->
          out = event))
      events (map (translate_event (default [] translations)) events)).
    { induction Hwf as [|event events Hev _ IH]; simpl; constructor; [|exact IH].
      exact (translate_event_spec _ event Hev). }
    assert (Hid : map (translate_event []) events = events).
    { clear. induction events as [|event events IH]; simpl; [reflexivity|].
      rewrite IH. f_equal. unfold translate_event. apply fold_unchanged.
      intros k text (v & _ & Ht). discriminate. }
    unfold _apply_translations.
    destruct translations as [[|entry t]|]; simpl in *.
    + now rewrite Hid in Hmap.
    + exact Hmap.
    + now rewrite Hid in Hmap.
Qed.

Lemma apply_translations_spec_witness :
  let t := default [] (Some [("IGN", "Ignition")]) in
  (Some [("IGN", "Ignition")] = None \/
   Some [("IGN", "Ignition")] = Some ([] : Api.table) ->
   _apply_translations (Some [("IGN", "Ignition")])
     [[("type", JStr "IGN")]; [("code", JInt 7)]]
   = [[("type", JStr "IGN")]; [("code", JInt 7)]]) /\
  Forall2
    (fun event out =>
       (forall k v text,
          dict_get event k = Some (JStr v) -> Api.table_get t v = Some text ->
          dict_get out (k +:+ "_translated") = Some (JStr text)) /\
       (forall q,
          (forall k v text,
             dict_get event k = Some (JStr v) -> Api.table_get t v = Some text ->
             q <> k +:+ "_translated") ->
          dict_get out q = dict_get event q) /\
       ((forall k v, dict_get event k = Some (JStr v) ->
                     Api.table_get t v = None) ->
        out = event))
    [[("type", JStr "IGN")]; [("code", JInt 7)]]
    (_apply_translations (Some [("IGN", "Ignition")])
       [[("type", JStr "IGN")]; [("code", JInt 7)]]).
Proof.
  apply (apply_translations_spec (Some [("IGN", "Ignition")])
           [[("type", JStr "IGN")]; [("code", JInt 7)]]).
  repeat (constructor; [apply NoDup_singleton|]). constructor.
Defined.

(** The example of the specification. *)
Example apply_translations_example :
  _apply_translations (Some [("IGN", "Ignition")]) [[("type", JStr "IGN")]]
  = [[("type", JStr "IGN"); ("type_translated", JStr "Ignition")]].
Proof. reflexivity. Qed.

(** *** The event batch *)

Lemma dict_items_objects (l : list dict) : Api.dict_items (map JObj l) = l.
Proof. induction l as [|d l IH]; simpl; [reflexivity | now rewrite IH]. Qed.

Lemma classify_ok (payload data : json) :
  Api.classify payload = Ok data -> data = payload.
Proof.
  unfold Api.classify.
  repeat match goal with
         | |- context [if ?c then _ else _] => destruct c
         | |- context [match ?x with _ => _ end] => destruct x
         end; intros [=]; congruence.
Qed.

Section Batch.

Context {W : Type}.
Variable session : string -> string -> dict -> M W json.
Variable g : Api.namespace.

(** A successful [fetch_event_data] has sent one request with the given
    count and offset and wraps its answer. *)
Lemma fetch_event_data_ok (tok : string) (count offset : Z) (data : dict)
    (w w' : W) :
  Api.fetch_event_data session g tok count offset w = (Ok data, w') ->
  exists url payload,
    session "get" url
      [("count", JInt count); ("offset", JInt offset); ("token", JStr tok)] w
    = (Ok payload, w') /\
    data = [("raw", payload);
            ("events", JArr (map JObj (Api._extract_events payload)))].
Proof.
  unfold Api.fetch_event_data, Api._request_json, bind, lift, try_except, ret, raise.
  destruct (Api.url_of g "API_BASE" "EVENT_DATA_PATH") as [url|e]; [|discriminate].
  destruct (session "get" url _ w) as [[payload|e] w1] eqn:Hs.
  - destruct (Api.classify payload) as [p|e] eqn:Hc; [|discriminate].
    apply classify_ok in Hc. subst p. intros H. inversion H; subst.
    exists url, payload. split; [exact Hs | reflexivity].
  - destruct e; simpl; discriminate.
Qed.

End Batch.

(** A value the wrapper returns is a value the operation returned. *)
Lemma fetch_with_auth_retry_ok {W A} (client : Client W) (username : string)
    (fetcher : string -> M W A) (s s' : state W) (a : A) :
  _fetch_with_auth_retry client username fetcher s = (Ok a, s') ->
  exists tok w w', fetcher tok w = (Ok a, w').
Proof.
  unfold _fetch_with_auth_retry, bind, try_except, logged, gets, set_token,
    modify, ret, raise.
  destruct s as [[t|] w c]; cbn.
  - destruct (fetcher t w) as [[v|e] w1] eqn:H1; cbn.
    + intros H. inversion H; subst. eauto.
    + destruct (is_StokerCloudAuthError e); cbn; [|discriminate].
      destruct (login client username w1) as [[r|e2] w2]; cbn.
      * destruct (fetcher (Api.token r) w2) as [[v|e3] w3] eqn:H2; cbn.
        -- intros H. inversion H; subst. eauto.
        -- destruct (is_StokerCloudAuthError e3); discriminate.
      * destruct (is_StokerCloudAuthError e2); discriminate.
  - destruct (login client username w) as [[r0|e0] w0]; cbn; [|discriminate].
    destruct (fetcher (Api.token r0) w0) as [[v|e] w1] eqn:H1; cbn.
    + intros H. inversion H; subst. eauto.
    + destruct (is_StokerCloudAuthError e); cbn; [|discriminate].
      destruct (login client username w1) as [[r|e2] w2]; cbn.
      * destruct (fetcher (Api.token r) w2) as [[v|e3] w3] eqn:H2; cbn.
        -- intros H. inversion H; subst. eauto.
        -- destruct (is_StokerCloudAuthError e3); discriminate.
      * destruct (is_StokerCloudAuthError e2); discriminate.
Qed.




End InitFacts.

(* ===================================================================== *)
(** ** Properties of concurrent callers *)
(* ===================================================================== *)

Module ConcFacts.
Import Conc.

Local Open Scope nat_scope.

(** *** What one step does to the lock and to the ghost counters *)

Lemma task_step_lock (sh sh' : shared) (t t' : task) (o : outcome) :
  task_step sh t o = Some (sh', t') ->
  match login_in_flight t, login_in_flight t' with
  | false, true => locked sh = false /\ locked sh' = true
  | true, false => locked sh' = false
  | false, false => locked sh' = locked sh
  | true, true => False
  end.
Proof.
  destruct t as [p ft], sh as [tk lk lg fl rj].
  unfold task_step, login_in_flight. cbn.
  destruct p, o as [|[tk'|e]|[v|e]]; try discriminate; cbn;
    try destruct lk; try destruct tk;
    try destruct (is_StokerCloudAuthError e);
    try discriminate; intros H; inversion H; subst; cbn; auto.
Qed.

Lemma task_step_counters (sh sh' : shared) (t t' : task) (o : outcome) :
  task_step sh t o = Some (sh', t') ->
  failed_logins sh <= failed_logins sh' /\ rejections sh <= rejections sh'.
Proof.
  destruct t as [p ft], sh as [tk lk lg fl rj].
  unfold task_step. cbn.
  destruct p, o as [|[tk'|e]|[v|e]]; try discriminate; cbn;
    try destruct lk; try destruct tk;
    try destruct (is_StokerCloudAuthError e);
    try discriminate; intros H; inversion H; subst; cbn; lia.
Qed.

(** *** Mutual exclusion *)

Lemma mutex_init (cached : option string) (n : nat) : mutex (init cached n).
Proof.
  split.
  - intros _ i t Hi. apply lookup_replicate in Hi as [-> _]. reflexivity.
  - intros i j ti tj Hi _ Hfi. apply lookup_replicate in Hi as [-> _].
    discriminate.
Qed.

Lemma lookup_step (s s' : system) (ev : event) :
  step s ev = Some s' ->
  exists t t',
    tasks s !! fst ev = Some t /\
    task_step (vars s) t (snd ev) = Some (vars s', t') /\
    tasks s' = <[fst ev := t']> (tasks s).
Proof.
  unfold step. destruct (tasks s !! fst ev) as [t|] eqn:Ht; [|discriminate].
  destruct (task_step (vars s) t (snd ev)) as [[sh' t']|] eqn:Hs; [|discriminate].
  intros H. inversion H; subst. exists t, t'. auto.
Qed.

Lemma mutex_step (s s' : system) (ev : event) :
  mutex s -> step s ev = Some s' -> mutex s'.
Proof.
  intros [Hfree Hone] Hstep.
  destruct (lookup_step s s' ev Hstep) as (t & t' & Ht & Hts & Htasks).
  pose proof (task_step_lock _ _ _ _ _ Hts) as Hlock.
  assert (Hlook : forall j tj, tasks s' !! j = Some tj ->
                    (j = fst ev /\ tj = t') \/ (j <> fst ev /\ tasks s !! j = Some tj)).
  { intros j tj Hj. rewrite Htasks in Hj.
    destruct (decide (j = fst ev)) as [->|Hne].
    - left. split; [reflexivity|].
      rewrite list_lookup_insert_eq in Hj by (eapply lookup_lt_Some; eauto).
      congruence.
    - right. split; [assumption|]. now rewrite list_lookup_insert_ne in Hj. }
  destruct (login_in_flight t) eqn:Hft, (login_in_flight t') eqn:Hft'.
  - destruct Hlock.
  - (* the holder leaves *)
    split.
    + intros _ j tj Hj. destruct (Hlook j tj Hj) as [[-> ->]|[Hne Hj']]; [assumption|].
      destruct (login_in_flight tj) eqn:Hfj; [|reflexivity].
      exfalso. apply Hne. exact (Hone _ _ _ _ Hj' Ht Hfj Hft).
    + intros i j ti tj Hi Hj Hfi Hfj.
      destruct (Hlook i ti Hi) as [[-> ->]|[Hnei Hi']]; [congruence|].
      exfalso. apply Hnei. exact (Hone _ _ _ _ Hi' Ht Hfi Hft).
  - (* a task takes the lock *)
    destruct Hlock as [Hl Hl']. split; [congruence|].
    intros i j ti tj Hi Hj Hfi Hfj.
    destruct (Hlook i ti Hi) as [[-> ->]|[Hnei Hi']];
      destruct (Hlook j tj Hj) as [[-> ->]|[Hnej Hj']]; try reflexivity.
    + rewrite (Hfree Hl _ _ Hj') in Hfj. discriminate.
    + rewrite (Hfree Hl _ _ Hi') in Hfi. discriminate.
    + rewrite (Hfree Hl _ _ Hi') in Hfi. discriminate.
  - (* the lock is not touched *)
    split.
    + intros Hl' j tj Hj. rewrite Hlock in Hl'.
      destruct (Hlook j tj Hj) as [[-> ->]|[Hne Hj']]; [assumption|eauto].
    + intros i j ti tj Hi Hj Hfi Hfj.
      destruct (Hlook i ti Hi) as [[-> ->]|[Hnei Hi']]; [congruence|].
      destruct (Hlook j tj Hj) as [[-> ->]|[Hnej Hj']]; [congruence|].
      exact (Hone _ _ _ _ Hi' Hj' Hfi Hfj).
Qed.

Lemma run_invariant (P : system -> Prop) :
  (forall s s' ev, P s -> step s ev = Some s' -> P s') ->
  forall evs s s', P s -> run evs s = Some s' -> P s'.
Proof.
  intros Hstep. induction evs as [|ev evs IH]; intros s s' Hs; simpl.
  - intros H. inversion H; subst. assumption.
  - destruct (step s ev) as [s1|] eqn:H1; [|discriminate].
    apply IH. eapply Hstep; eauto.
Qed.

(** *** Runs without a failed login or a rejected attempt *)

(** The steps a calm run can take. *)
Lemma task_step_calm (sh sh' : shared) (t t' : task) (o : outcome) :
  task_step sh t o = Some (sh', t') ->
  rejections sh' = 0 ->
  failed_logins sh' = 0 \/ login_in_flight t = false ->
  calm_pc (at_pc t) = true ->
  (at_pc t = Start /\ locked sh = false /\ token sh = None /\
   sh' = mkShared None true (S (logins sh)) (failed_logins sh) (rejections sh) /\
   t' = mkTask Login (first_token t)) \/
  (exists tok,
     at_pc t = Start /\ locked sh = false /\ token sh = Some tok /\
     sh' = sh /\ t' = mkTask (Fetch1 tok) (Some tok)) \/
  (exists tok,
     at_pc t = Login /\
     sh' = mkShared (Some tok) false (logins sh) (failed_logins sh)
             (rejections sh) /\
     t' = mkTask (Fetch1 tok) (Some tok)) \/
  (exists tok r,
     at_pc t = Fetch1 tok /\ sh' = sh /\ t' = mkTask (Done r) (first_token t)).
Proof.
  destruct t as [p ft], sh as [tk lk lg fl rj].
  unfold task_step, login_in_flight. cbn.
  destruct p, o as [|[tk'|e]|[v|e]]; try discriminate; cbn;
    try destruct lk; try destruct tk;
    try destruct (is_StokerCloudAuthError e);
    try discriminate; intros H Hr [Hf|Hf] _; inversion H; subst; cbn in *;
    try discriminate; eauto 10.
Qed.

Lemma settled_init (cached : option string) (n : nat) :
  settled cached (init cached n).
Proof.
  split; [|split; [|split]].
  - intros i t Hi. apply lookup_replicate in Hi as [-> _]. reflexivity.
  - intros i t tok Hi. apply lookup_replicate in Hi as [-> _]. discriminate.
  - intros i t Hi. apply lookup_replicate in Hi as [-> _]. discriminate.
  - destruct cached; simpl; auto.
Qed.

Lemma settled_step (cached : option string) (s s' : system) (ev : event) :
  mutex s -> settled cached s -> calm cached (vars s') ->
  step s ev = Some s' -> settled cached s'.
Proof.
  intros [Hfree Hone] (Hpc & Hseen & Hpast & Hcount) [Hrej Hfail] Hstep.
  destruct (lookup_step s s' ev Hstep) as (t & t' & Ht & Hts & Htasks).
  assert (Hquiet : failed_logins (vars s') = 0 \/ login_in_flight t = false).
  { destruct cached as [t0|]; [right|left; auto].
    destruct Hcount as (_ & _ & Hl). exact (Hfree Hl _ _ Ht). }
  unfold settled.
  assert (Hlook : forall j tj, tasks s' !! j = Some tj ->
                    tj = t' \/ tasks s !! j = Some tj).
  { intros j tj Hj. rewrite Htasks in Hj.
    destruct (decide (j = fst ev)) as [->|Hne].
    - left. rewrite list_lookup_insert_eq in Hj by (eapply lookup_lt_Some; eauto).
      congruence.
    - right. now rewrite list_lookup_insert_ne in Hj. }
  destruct (task_step_calm _ _ _ _ _ Hts Hrej Hquiet (Hpc _ _ Ht))
    as [(Hp & Hl & Htk & Hsh & ->)
       |[(tok & Hp & Hl & Htk & Hsh & ->)
        |[(tok & Hp & Hsh & ->)
         |(tok & r & Hp & Hsh & ->)]]].
  - (* a caller finds the cache empty and starts the login *)
    rewrite Hsh. split; [|split; [|split]].
    + intros j tj Hj. destruct (Hlook j tj Hj) as [->|Hj']; [reflexivity|eauto].
    + intros j tj tk Hj Hft. cbn.
      destruct (Hlook j tj Hj) as [->|Hj'].
      * cbn in Hft. rewrite <- Htk. eauto.
      * rewrite <- Htk. eauto.
    + intros j tj Hj. destruct (Hlook j tj Hj) as [->|Hj']; [discriminate|eauto].
    + destruct cached as [t0|]; cbn.
      * destruct Hcount as (Ht0 & _). congruence.
      * destruct Hcount as (Hlg & _). rewrite Hlg, Htk, Hl.
        split; [reflexivity | congruence].
  - (* a caller finds the cached token *)
    rewrite Hsh. split; [|split; [|split]].
    + intros j tj Hj. destruct (Hlook j tj Hj) as [->|Hj']; [reflexivity|eauto].
    + intros j tj tk Hj Hft.
      destruct (Hlook j tj Hj) as [->|Hj']; [|eauto].
      cbn in Hft. congruence.
    + intros j tj Hj. destruct (Hlook j tj Hj) as [->|Hj']; [discriminate|eauto].
    + exact Hcount.
  - (* the login returns a token *)
    assert (Hlk : locked (vars s) = true).
    { destruct (locked (vars s)) eqn:Hl; [reflexivity|].
      pose proof (Hfree eq_refl _ _ Ht) as Hnf.
      unfold login_in_flight in Hnf. rewrite Hp in Hnf. discriminate. }
    rewrite Hsh. split; [|split; [|split]].
    + intros j tj Hj. destruct (Hlook j tj Hj) as [->|Hj']; [reflexivity|eauto].
    + intros j tj tk Hj Hft. cbn.
      destruct (Hlook j tj Hj) as [->|Hj']; [cbn in Hft; congruence|].
      pose proof (Hseen _ _ _ Hj' Hft) as Hold.
      destruct cached as [t0|].
      * destruct Hcount as (_ & _ & Hl). congruence.
      * destruct Hcount as (_ & Hl). rewrite Hl in Hlk by congruence. discriminate.
    + intros j tj Hj. destruct (Hlook j tj Hj) as [->|Hj']; [discriminate|eauto].
    + destruct cached as [t0|]; cbn.
      * destruct Hcount as (_ & _ & Hl). congruence.
      * destruct Hcount as (Hlg & Hl). split; [|reflexivity].
        rewrite Hlg, Hlk.
        destruct (token (vars s)) eqn:Htk; [|reflexivity].
        rewrite Hl in Hlk by congruence. discriminate.
  - (* an attempt returns or raises *)
    rewrite Hsh. split; [|split; [|split]].
    + intros j tj Hj. destruct (Hlook j tj Hj) as [->|Hj']; [reflexivity|eauto].
    + intros j tj tk Hj Hft.
      destruct (Hlook j tj Hj) as [->|Hj']; eauto.
    + intros j tj Hj. destruct (Hlook j tj Hj) as [->|Hj']; [|eauto].
      intros _. cbn. apply (Hpast _ _ Ht). unfold past_guard. now rewrite Hp.
    + exact Hcount.
Qed.

(** Every state a schedule reaches satisfies [mutex], and [settled] as long
    as no login failed and no attempt was rejected. *)
Lemma run_mutex_settled (cached : option string) (n : nat) (evs : list event)
    (s : system) :
  run evs (init cached n) = Some s ->
  mutex s /\ (calm cached (vars s) -> settled cached s).
Proof.
  apply (run_invariant
           (fun s => mutex s /\ (calm cached (vars s) -> settled cached s))).
  - intros s0 s1 ev [Hm Hs] Hstep. split; [eapply mutex_step; eauto|].
    intros Hcalm. eapply settled_step; eauto.
    apply Hs.
    destruct (lookup_step _ _ _ Hstep) as (t & t' & _ & Hts & _).
    destruct (task_step_counters _ _ _ _ _ Hts), Hcalm as [Hr Hf].
    split; [lia|]. intros Hc. specialize (Hf Hc). lia.
  - split; [apply mutex_init | intros _; apply settled_init].
Qed.

(** Outside the calm runs the forced logins add up: here three logins for
    two callers, each of which retries with a token of its own. *)
Example rejected_callers_force_logins :
  exists s,
    run two_rejected_callers (init None 2) = Some s /\
    logins (vars s) = 3 /\ rejections (vars s) = 2 /\
    token (vars s) = Some "t3" /\
    map first_token (tasks s) = [Some "t1"; Some "t1"].
Proof. eexists. split; [vm_compute; reflexivity|]. repeat split. Qed.

(** *** The task and the sequential wrapper agree *)

(** A task that runs alone, resumed with what the client answers, ends
    with the result, the cached token, the world and the number of logins
    of [_fetch_with_auth_retry], and with the lock released. *)
Lemma alone_agrees {W : Type} (client : Init.Client W) (username : string)
    (fetcher : string -> M W json) (cached : option string) (w : W) :
  let '(w', sh', t') :=
    drive client username fetcher 6 w (mkShared cached false 0 0 0)
      (mkTask Start None) in
  let '(r, s') :=
    Init._fetch_with_auth_retry client username fetcher
      (Init.mkState cached w []) in
  at_pc t' = Done r /\ token sh' = Init.token s' /\ w' = Init.world s' /\
  logins sh' = Init.logins s' /\ locked sh' = false.
Proof.
  unfold Init._fetch_with_auth_retry, bind, try_except, Init.logged, gets,
    Init.set_token, modify, ret, raise, Init.logins.
  destruct cached as [t0|]; cbn;
    repeat (match goal with
            | H : ?c = _ |- context [?c] => rewrite H
            | |- context [Init.login client username ?x] =>
                destruct (Init.login client username x) as [[?|?] ?] eqn:?
            | |- context [fetcher ?t ?x] =>
                destruct (fetcher t x) as [[?|?] ?] eqn:?
            | |- context [is_StokerCloudAuthError ?e] =>
                destruct (is_StokerCloudAuthError e) eqn:?
            end; cbn);
    auto.
Qed.

End ConcFacts.

(* ##################################################################### *)
(** * Further properties *)
(* ##################################################################### *)

(* ===================================================================== *)
(** ** The client (api.py) *)
(* ===================================================================== *)

Module ApiMore.
Import Api Terms.

Lemma py_in_status_ok (status : json) :
  py_in status [LNone; LInt 0; LStr "0"] = true -> status_ok status.
Proof.
  unfold status_ok.
  destruct status as [|[|]|z|s| |]; simpl; try discriminate; try tauto.
  - destruct (Z.eqb_spec z 0) as [->|]; [tauto|discriminate].
  - destruct (String.eqb_spec s "0") as [->|]; [tauto|discriminate].
Qed.

(** A payload that passes the checks is the payload, an object or an
    array, and an object has a status the checks let through. *)
Lemma classify_ok_inv (payload data : json) :
  classify payload = Ok data ->
  data = payload /\ is_dict payload || is_list payload = true /\
  forall d, payload = JObj d -> status_ok (get d "status").
Proof.
  unfold classify.
  destruct payload as [| | | |items|d]; cbn [is_dict is_list orb negb];
    try discriminate.
  - intros H. inversion H. split; [reflexivity|]. split; [reflexivity|].
    intros d Hd. discriminate.
  - destruct (py_in (get d "status") [LNone; LInt 0; LStr "0"]) eqn:Hs;
      cbn [negb].
    + intros H. inversion H. split; [reflexivity|]. split; [reflexivity|].
      intros d' Hd. inversion Hd; subst. now apply py_in_status_ok.
    + repeat match goal with
             | |- context [if ?c then _ else _] => destruct c
             end; discriminate.
Qed.

(** Every exception of the checks is a [StokerCloudError]. *)
Lemma classify_raise_inv (payload : json) (e : exn) :
  classify payload = Raise e -> is_StokerCloudError e = true.
Proof.
  unfold classify.
  repeat match goal with
         | |- context [if ?c then _ else _] => destruct c
         | |- context [match ?x with _ => _ end] => destruct x
         end; intros H; inversion H; reflexivity.
Qed.

Section Requests.

Context {W : Type}.
Variable session : string -> string -> dict -> M W json.

(** How [_request_json] runs, by what the session does. *)
Lemma request_json_run (method url : string) (params : dict) (w : W) :
  _request_json session method url params w =
  match session method url params w with
  | (Ok payload, w') => (classify payload, w')
  | (Raise (ClientError m), w') => (Raise (StokerCloudError m), w')
  | (Raise (ValueError _), w') =>
      (Raise (StokerCloudError "Invalid JSON response"), w')
  | (Raise e, w') => (Raise e, w')
  end.
Proof.
  unfold _request_json, bind, try_except, lift, raise.
  destruct (session method url params w) as [[payload|e] w']; [reflexivity|].
  destruct e; reflexivity.
Qed.

(** What a returning [_request_json] went through. *)
Lemma request_json_ok_inv (method url : string) (params : dict)
    (w w' : W) (payload : json) :
  _request_json session method url params w = (Ok payload, w') ->
  session method url params w = (Ok payload, w') /\
  is_dict payload || is_list payload = true /\
  forall d, payload = JObj d -> status_ok (get d "status").
Proof.
  rewrite request_json_run.
  destruct (session method url params w) as [[p|e] w1].
  - intros H. injection H as Hc Hw. subst w1.
    destruct (classify_ok_inv _ _ Hc) as (Heq & Hshape & Hst). subst payload.
    split; [reflexivity|]. split; assumption.
  - destruct e; discriminate.
Qed.

(** X1: What [_request_json] returns is what the session returned for the one
    request it sent, and it is a JSON object or array; an object has a
    status that is absent, 0 or "0". *)
Theorem request_json_returns_checked (method url : string) (params : dict)
    (w w' : W) (payload : json) :
  _request_json session method url params w = (Ok payload, w') ->
  session method url params w = (Ok payload, w') /\
  is_dict payload || is_list payload = true /\
  forall d, payload = JObj d -> status_ok (get d "status").
Proof. apply request_json_ok_inv. Qed.

(** X2: A transport failure reaches the caller as a [StokerCloudError] with the
    text of the failure, a body that is not JSON as a [StokerCloudError]
    "Invalid JSON response"; and when the session raises nothing but these
    two, every exception of [_request_json] is a [StokerCloudError], raised
    after that one request. *)
Theorem request_json_wraps_failures (method url : string) (params : dict)
    (w w' : W) (r : result json) :
  session method url params w = (r, w') ->
  (forall m, r = Raise (ClientError m) ->
     _request_json session method url params w
     = (Raise (StokerCloudError m), w')) /\
  (forall m, r = Raise (ValueError m) ->
     _request_json session method url params w
     = (Raise (StokerCloudError "Invalid JSON response"), w')) /\
  ((forall e, r = Raise e -> transport_exn e = true) ->
   forall e w2,
     _request_json session method url params w = (Raise e, w2) ->
     is_StokerCloudError e = true /\ w2 = w').
Proof.
  intros Hs. rewrite request_json_run, Hs. split; [|split].
  - intros m ->. reflexivity.
  - intros m ->. reflexivity.
  - intros Ht e w2. destruct r as [p|e0].
    + intros H. injection H as Hc Hw. split; [|now symmetry].
      now apply classify_raise_inv in Hc.
    + specialize (Ht e0 eq_refl).
      destruct e0; try discriminate; intros H; inversion H; auto.
Qed.

(** *** [fetch_controller_data] *)

Lemma load_name_raise (g : namespace) (n : string) (e : exn) :
  load_name g n = Raise e -> e = NameError n.
Proof.
  induction g as [|[n' v] g IH]; simpl.
  - intros [= <-]. reflexivity.
  - destruct (String.eqb n' n); [discriminate|exact IH].
Qed.

Lemma url_of_raise (g : namespace) (a b : string) (e : exn) :
  url_of g a b = Raise e -> exists n, e = NameError n.
Proof.
  unfold url_of.
  destruct (load_name g a) eqn:Ha.
  - destruct (load_name g b) eqn:Hb; [discriminate|].
    intros [= <-]. apply load_name_raise in Hb. eauto.
  - intros [= <-]. apply load_name_raise in Ha. eauto.
Qed.

Lemma status_ok_not_auth (status : json) :
  status_ok status ->
  py_in status [LInt 401; LInt 403; LStr "401"; LStr "403"] = false.
Proof.
  unfold status_ok. simpl. intros [<-|[<-|[<-|[<-|[]]]]]; reflexivity.
Qed.

Lemma status_ok_py_in (status : json) :
  status_ok status -> py_in status [LNone; LInt 0; LStr "0"] = true.
Proof.
  unfold status_ok. simpl. intros [<-|[<-|[<-|[<-|[]]]]]; reflexivity.
Qed.

(** The authentication error of the checks carries the text of the
    message of an object whose status they do not let through. *)
Lemma classify_auth_inv (payload : json) (m : string) :
  classify payload = Raise (StokerCloudAuthError m) ->
  exists d,
    payload = JObj d /\ ~ status_ok (get d "status") /\
    m = str (get_default d "message" (JStr "Request failed")).
Proof.
  unfold classify.
  destruct payload as [| | | |items|d]; cbn [is_dict is_list orb negb];
    try discriminate.
  destruct (py_in (get d "status") [LNone; LInt 0; LStr "0"]) eqn:Hs;
    cbn [negb]; [discriminate|].
  intros H. exists d. split; [reflexivity|]. split.
  - intros Hok. apply status_ok_py_in in Hok. congruence.
  - revert H.
    repeat match goal with
           | |- context [if ?c then _ else _] => destruct c
           end; intros H; inversion H; reflexivity.
Qed.

Lemma fetch_controller_data_run (g : namespace) (tok : string) (w : W) :
  fetch_controller_data session g tok w =
  match url_of g "API_BASE" "CONTROLLER_DATA_PATH" with
  | Raise e => (Raise e, w)
  | Ok url =>
      match load_name g "DEFAULT_SCREEN" with
      | Raise e => (Raise e, w)
      | Ok screen =>
          match _request_json session "get" url
                  [("screen", JStr screen); ("token", JStr tok)] w with
          | (Raise e, w') => (Raise e, w')
          | (Ok (JObj d), w') =>
              if py_in (get d "status") [LInt 401; LInt 403; LStr "401"; LStr "403"]
              then (Raise (StokerCloudAuthError "Token rejected"), w')
              else if negb (has_key d "miscdata")
              then (Raise (StokerCloudError "Unexpected controller data payload"), w')
              else (Ok (JObj d), w')
          | (Ok _, w') =>
              (Raise (StokerCloudError "Unexpected controller data payload"), w')
          end
      end
  end.
Proof.
  unfold fetch_controller_data, bind, lift.
  destruct (url_of g "API_BASE" "CONTROLLER_DATA_PATH") as [url|e]; [|reflexivity].
  destruct (load_name g "DEFAULT_SCREEN") as [screen|e]; [|reflexivity].
  destruct (_request_json session "get" url _ w) as [[p|e] w']; [|reflexivity].
  destruct p; try reflexivity. unfold raise, ret.
  destruct (py_in _ _); [reflexivity|]. destruct (negb _); reflexivity.
Qed.

(** X3: A snapshot [fetch_controller_data] returns is the answer to one GET of
    the controller data path with the screen and the token; it is an
    object that holds [miscdata], with a status that is absent, 0 or "0". *)
Theorem fetch_controller_data_returns (g : namespace) (tok : string)
    (w w' : W) (payload : json) :
  fetch_controller_data session g tok w = (Ok payload, w') ->
  exists url screen d,
    url_of g "API_BASE" "CONTROLLER_DATA_PATH" = Ok url /\
    load_name g "DEFAULT_SCREEN" = Ok screen /\
    session "get" url [("screen", JStr screen); ("token", JStr tok)] w
    = (Ok payload, w') /\
    payload = JObj d /\ has_key d "miscdata" = true /\
    status_ok (get d "status").
Proof.
  rewrite fetch_controller_data_run.
  destruct (url_of g "API_BASE" "CONTROLLER_DATA_PATH") as [url|e]; [|discriminate].
  destruct (load_name g "DEFAULT_SCREEN") as [screen|e]; [|discriminate].
  destruct (_request_json session "get" url _ w) as [[p|e] w1] eqn:Hr;
    [|discriminate].
  destruct (request_json_ok_inv _ _ _ _ _ _ Hr) as (Hs & _ & Hst).
  destruct p as [| | | |items|d]; try discriminate.
  destruct (py_in _ _); [discriminate|].
  destruct (has_key d "miscdata") eqn:Hk; [|discriminate].
  cbn [negb]. intros H. injection H as <- <-.
  exists url, screen, d. repeat split; auto.
Qed.

(** X4: With a session that raises only what its contract names, an
    authentication error of [fetch_controller_data] always carries the text
    of the message the server sent with a status that is not absent, 0 or
    "0": the test of the status made after [_request_json] never fires,
    and its text "Token rejected" is never what the caller sees unless the
    server sent it. *)
Theorem fetch_controller_data_auth_error (g : namespace) (tok m : string)
    (w w' : W) :
  well_behaved session w ->
  fetch_controller_data session g tok w
  = (Raise (StokerCloudAuthError m), w') ->
  exists url screen d,
    session "get" url [("screen", JStr screen); ("token", JStr tok)] w
    = (Ok (JObj d), w') /\
    ~ status_ok (get d "status") /\
    m = str (get_default d "message" (JStr "Request failed")).
Proof.
  intros Hwb. rewrite fetch_controller_data_run.
  destruct (url_of g "API_BASE" "CONTROLLER_DATA_PATH") as [url|e] eqn:Hurl.
  2:{ intros H. injection H as -> _. apply url_of_raise in Hurl as [n [=]]. }
  destruct (load_name g "DEFAULT_SCREEN") as [screen|e] eqn:Hscreen.
  2:{ intros H. injection H as -> _. apply load_name_raise in Hscreen as [=]. }
  rewrite request_json_run.
  destruct (session "get" url _ w) as [[p|e] w1] eqn:Hs.
  - destruct (classify p) as [p'|e] eqn:Hc.
    + destruct (classify_ok_inv _ _ Hc) as (-> & _ & Hst).
      destruct p as [| | | |items|d]; try discriminate.
      rewrite (status_ok_not_auth _ (Hst d eq_refl)).
      destruct (negb _); discriminate.
    + intros H. injection H as -> ->.
      destruct (classify_auth_inv _ _ Hc) as (d & -> & Hst & Hm).
      exists url, screen, d. auto.
  - pose proof (Hwb _ _ _ _ _ Hs) as Ht.
    destruct e; try discriminate.
Qed.

(** *** [fetch_translations] *)

Lemma str_entries_absent (d : dict) (k : string) :
  ~ In k (keys d) -> table_get (str_entries d) k = None.
Proof.
  unfold keys. induction d as [|[k0 v0] d IH]; simpl; [reflexivity|].
  intros Hn. destruct v0; try (apply IH; tauto).
  simpl. destruct (String.eqb_spec k0 k) as [->|]; [tauto|]. apply IH. tauto.
Qed.

(** The table holds the entries of the object whose value is a string, and
    nothing else. *)
Lemma str_entries_get (d : dict) (k : string) :
  dict_wf d ->
  table_get (str_entries d) k
  = match dict_get d k with Some (JStr v) => Some v | _ => None end.
Proof.
  unfold dict_wf, keys. induction d as [|[k0 v0] d IH]; simpl; [reflexivity|].
  intros Hnd. apply NoDup_cons in Hnd as [Hk0 Hnd].
  assert (Hskip : String.eqb k0 k = true ->
                  table_get (str_entries d) k = None).
  { intros Heq. apply String.eqb_eq in Heq. subst k0.
    apply str_entries_absent. intros Hin. apply Hk0.
    now apply list_elem_of_In. }
  destruct v0; simpl; destruct (String.eqb k0 k) eqn:Heq; auto.
Qed.

Lemma str_entries_keys (d : dict) (k : string) :
  In k (map fst (str_entries d)) -> In k (keys d).
Proof.
  unfold keys. induction d as [|[k0 v0] d IH]; simpl; [tauto|].
  destruct v0; simpl; tauto.
Qed.

Lemma str_entries_wf (d : dict) : dict_wf d -> NoDup (map fst (str_entries d)).
Proof.
  unfold dict_wf, keys. induction d as [|[k0 v0] d IH]; simpl; [constructor|].
  intros Hnd. apply NoDup_cons in Hnd as [Hk0 Hnd].
  destruct v0; simpl; auto.
  apply NoDup_cons. split; [|auto].
  intros Hin. apply Hk0. apply list_elem_of_In, str_entries_keys.
  now apply list_elem_of_In.
Qed.

(** X5: A table [fetch_translations] returns comes from one GET of the file of
    the language; the answer is an object, and the table maps a key to a
    text exactly when the object maps it to that text as a string: entries
    with another kind of value are dropped, the others are kept, and no key
    appears twice. *)
Theorem fetch_translations_returns (g : namespace) (language : string)
    (w w' : W) (t : table) :
  fetch_translations session g language w = (Ok t, w') ->
  exists base d,
    load_name g "TRANSLATION_BASE" = Ok base /\
    session "get" (base +:+ "/" +:+ language +:+ ".json") [] w
    = (Ok (JObj d), w') /\
    t = str_entries d /\
    (dict_wf d ->
     NoDup (map fst t) /\
     forall k,
       table_get t k
       = match dict_get d k with Some (JStr v) => Some v | _ => None end).
Proof.
  unfold fetch_translations, bind, lift.
  destruct (load_name g "TRANSLATION_BASE") as [base|e]; [|discriminate].
  destruct (_request_json session "get" _ [] w) as [[p|e] w1] eqn:Hr;
    [|discriminate].
  destruct (request_json_ok_inv _ _ _ _ _ _ Hr) as (Hs & _).
  destruct p as [| | | |items|d]; try discriminate.
  unfold ret. intros H. injection H as <- <-.
  exists base, d. repeat split; auto.
  - now apply str_entries_wf.
  - intros k. now apply str_entries_get.
Qed.

End Requests.

Lemma request_json_returns_checked_witness :
  Script.session "get" "u" [] [Ok (JArr [JInt 1])] = (Ok (JArr [JInt 1]), []) /\
  is_dict (JArr [JInt 1]) || is_list (JArr [JInt 1]) = true /\
  forall d, JArr [JInt 1] = JObj d -> status_ok (get d "status").
Proof.
  apply (request_json_returns_checked Script.session "get" "u" []
           [Ok (JArr [JInt 1])] [] (JArr [JInt 1])).
  reflexivity.
Defined.

Lemma request_json_wraps_failures_witness :
  _request_json Script.session "get" "u" [] []
  = (Raise (StokerCloudError "connection closed"), []) /\
  _request_json Script.session "get" "u" [] [Raise (ValueError "bad")]
  = (Raise (StokerCloudError "Invalid JSON response"), []) /\
  (forall e w2,
     _request_json Script.session "get" "u" [] [Ok (JInt 3)] = (Raise e, w2) ->
     is_StokerCloudError e = true /\ w2 = []).
Proof.
  split; [|split].
  - apply (proj1 (request_json_wraps_failures Script.session "get" "u" [] []
                    [] (Raise (ClientError "connection closed")) eq_refl)).
    reflexivity.
  - apply (proj1 (proj2 (request_json_wraps_failures Script.session "get" "u"
                           [] [Raise (ValueError "bad")] []
                           (Raise (ValueError "bad")) eq_refl)) "bad").
    reflexivity.
  - apply (proj2 (proj2 (request_json_wraps_failures Script.session "get" "u"
                           [] [Ok (JInt 3)] [] (Ok (JInt 3)) eq_refl))).
    intros e H. discriminate H.
Defined.

Lemma fetch_controller_data_returns_witness :
  exists url screen d,
    url_of api_globals "API_BASE" "CONTROLLER_DATA_PATH" = Ok url /\
    load_name api_globals "DEFAULT_SCREEN" = Ok screen /\
    Script.session "get" url [("screen", JStr screen); ("token", JStr "t1")]
      [Ok Script.controller_data]
    = (Ok Script.controller_data, []) /\
    Script.controller_data = JObj d /\ has_key d "miscdata" = true /\
    status_ok (get d "status").
Proof.
  apply (fetch_controller_data_returns Script.session api_globals "t1"
           [Ok Script.controller_data] [] Script.controller_data).
  reflexivity.
Defined.

Lemma well_behaved_script (w : Script.world) :
  (forall e, In (Raise e) w -> transport_exn e = true) ->
  forall w0, (exists pre, w = pre ++ w0) -> well_behaved Script.session w0.
Proof.
  intros Hw w0 [pre ->] method url params e w'.
  destruct w0 as [|r w0]; simpl.
  - intros [= <- _]. reflexivity.
  - intros [= -> _]. apply Hw. apply in_or_app. right. now left.
Qed.

Lemma fetch_controller_data_auth_error_witness :
  exists url screen d,
    Script.session "get" url [("screen", JStr screen); ("token", JStr "t1")]
      [Script.rejected]
    = (Ok (JObj d), []) /\
    ~ status_ok (get d "status") /\
    "Unauthorized" = str (get_default d "message" (JStr "Request failed")).
Proof.
  apply (fetch_controller_data_auth_error Script.session api_globals "t1"
           "Unauthorized" [Script.rejected] []).
  - apply (well_behaved_script [Script.rejected]).
    + intros e [H|[]]. discriminate H.
    + exists []. reflexivity.
  - reflexivity.
Defined.

Lemma fetch_translations_returns_witness :
  exists base d,
    load_name api_globals "TRANSLATION_BASE" = Ok base /\
    Script.session "get" (base +:+ "/" +:+ "uk" +:+ ".json") []
      [Ok (JObj [("IGN", JStr "Ignition"); ("n", JInt 3)])]
    = (Ok (JObj d), []) /\
    [("IGN", "Ignition")] = str_entries d /\
    (dict_wf d ->
     NoDup (map fst [("IGN", "Ignition")]) /\
     forall k,
       table_get [("IGN", "Ignition")] k
       = match dict_get d k with Some (JStr v) => Some v | _ => None end).
Proof.
  apply (fetch_translations_returns Script.session api_globals "uk"
           [Ok (JObj [("IGN", JStr "Ignition"); ("n", JInt 3)])] []
           [("IGN", "Ignition")]).
  reflexivity.
Defined.

End ApiMore.

(* ===================================================================== *)
(** ** The closures (__init__.py) *)
(* ===================================================================== *)

Module InitMore.
Import Init Spec Terms.

(** Every run of the wrapper, by cases on what the client and the operation
    answer. *)
Ltac guard_cases client username fetcher :=
  unfold _fetch_with_auth_retry, bind, try_except, logged, gets, set_token,
    modify, ret, raise;
  cbn;
  repeat (match goal with
          | H : ?c = _ |- context [?c] => rewrite H
          | |- context [login client username ?x] =>
              destruct (login client username x) as [[?|?] ?] eqn:?
          | |- context [fetcher ?t ?x] =>
              destruct (fetcher t x) as [[?|?] ?] eqn:?
          | |- context [is_StokerCloudAuthError ?e] =>
              destruct (is_StokerCloudAuthError e) eqn:?
          end; cbn).

Ltac count_calls :=
  unfold logins, attempts; cbn [calls];
  rewrite ?List.filter_app, ?length_app; cbn; try lia.

Section Guard.

Context {W A : Type}.
Variable client : Client W.
Variable username : string.
Variable fetcher : string -> M W A.

(** X7: Whatever the client and the operation answer, one call through the
    wrapper logs in at most twice and attempts the operation at most twice;
    a second attempt is made only after a further login; and a token that
    was cached is never dropped: the call leaves a token in the cache and
    logs in at most once. *)
Theorem guard_is_bounded (s0 : state W) :
  let s' := snd (_fetch_with_auth_retry client username fetcher s0) in
  (logins s0 <= logins s' <= logins s0 + 2)%nat /\
  (attempts s0 <= attempts s' <= attempts s0 + 2)%nat /\
  (attempts s' = attempts s0 + 2 -> logins s0 + 1 <= logins s')%nat /\
  (token s0 <> None ->
   token s' <> None /\ (logins s' <= logins s0 + 1)%nat).
Proof.
  destruct s0 as [[t|] w c]; guard_cases client username fetcher;
    count_calls; repeat split; try lia; try congruence; try discriminate.
Qed.

(** X8: A value the wrapper returns was returned by the operation for the token
    that the cache holds afterwards, in the last call of the run. *)
Theorem guard_returns_with_cached_token (s0 s' : state W) (a : A) :
  _fetch_with_auth_retry client username fetcher s0 = (Ok a, s') ->
  exists tok w,
    token s' = Some tok /\
    fetcher tok w = (Ok a, world s') /\
    last (calls s') = Some (CFetch tok).
Proof.
  destruct s0 as [[t|] w c]; guard_cases client username fetcher;
    intros H; inversion H; subst; cbn [token world calls];
    rewrite ?last_snoc; eauto.
Qed.

(** X9: When the first attempt returns, the wrapper returns its value after
    that single attempt: no login beyond the one that fills an empty cache. *)
Theorem guard_accepted_first_attempt (s0 : state W) (t1 : string)
    (w1 w2 : W) (a : A) :
  lazy_token client username s0 t1 w1 ->
  fetcher t1 w1 = (Ok a, w2) ->
  _fetch_with_auth_retry client username fetcher s0
  = (Ok a, mkState (Some t1) w2 (calls s0 ++ lazy_calls s0 ++ [CFetch t1])).
Proof.
  unfold lazy_token, lazy_calls.
  destruct s0 as [[t|] w c]; cbn [token world calls].
  - intros [-> ->] Hf. guard_cases client username fetcher. reflexivity.
  - intros (r & Hl & ->) Hf. guard_cases client username fetcher.
    now rewrite <- app_assoc.
Qed.

Lemma lazy_login_raises_run (s0 : state W) (e : exn) (w1 : W) :
  token s0 = None ->
  login client username (world s0) = (Raise e, w1) ->
  _fetch_with_auth_retry client username fetcher s0
  = (Raise e, mkState None w1 (calls s0 ++ [CLogin])).
Proof.
  intros Ht Hl. destruct s0 as [t w c]. cbn in Ht, Hl. subst t.
  guard_cases client username fetcher. reflexivity.
Qed.

Lemma forced_login_raises_run (s0 : state W) (t1 m : string) (w1 w2 w3 : W)
    (e2 : exn) :
  lazy_token client username s0 t1 w1 ->
  fetcher t1 w1 = (Raise (StokerCloudAuthError m), w2) ->
  login client username w2 = (Raise e2, w3) ->
  _fetch_with_auth_retry client username fetcher s0
  = (Raise (if is_StokerCloudAuthError e2
            then ConfigEntryAuthFailed (exn_str e2) else e2),
     mkState (Some t1) w3
       (calls s0 ++ lazy_calls s0 ++ [CFetch t1; CLogin])).
Proof.
  unfold lazy_token, lazy_calls.
  destruct s0 as [[t|] w c]; cbn [token world calls].
  - intros [-> ->] Hf Hl. guard_cases client username fetcher;
      rewrite <- ?app_assoc; reflexivity.
  - intros (r & Hl0 & ->) Hf Hl. guard_cases client username fetcher;
      rewrite <- ?app_assoc; reflexivity.
Qed.

(** X10: A login that raises.  In the guarded section at the start, the
    exception reaches the caller as it is, an authentication error
    included; no attempt is made and the cache stays empty.  In the forced
    refresh, an authentication error reaches the caller as
    [ConfigEntryAuthFailed] and any other exception as it is; the token
    that was rejected stays in the cache and the operation is not
    attempted again. *)
Theorem guard_login_raises (s0 : state W) :
  (forall e w1,
     token s0 = None ->
     login client username (world s0) = (Raise e, w1) ->
     _fetch_with_auth_retry client username fetcher s0
     = (Raise e, mkState None w1 (calls s0 ++ [CLogin]))) /\
  (forall t1 w1 m w2 e2 w3,
     lazy_token client username s0 t1 w1 ->
     fetcher t1 w1 = (Raise (StokerCloudAuthError m), w2) ->
     login client username w2 = (Raise e2, w3) ->
     _fetch_with_auth_retry client username fetcher s0
     = (Raise (if is_StokerCloudAuthError e2
               then ConfigEntryAuthFailed (exn_str e2) else e2),
        mkState (Some t1) w3
          (calls s0 ++ lazy_calls s0 ++ [CFetch t1; CLogin]))).
Proof.
  split.
  - intros e w1. apply lazy_login_raises_run.
  - intros t1 w1 m w2 e2 w3. apply forced_login_raises_run.
Qed.

End Guard.

Lemma guard_accepted_first_attempt_witness :
  _fetch_with_auth_retry Script.client "user"
    (fetch_controller_data Script.client)
    (mkState (Some "t0") [Ok Script.controller_data] [])
  = (Ok Script.controller_data,
     mkState (Some "t0") [] ([] ++ [] ++ [CFetch "t0"])).
Proof.
  apply (guard_accepted_first_attempt Script.client "user"
           (fetch_controller_data Script.client)
           (mkState (Some "t0") [Ok Script.controller_data] [])
           "t0" [Ok Script.controller_data] [] Script.controller_data).
  - split; reflexivity.
  - reflexivity.
Defined.

Lemma guard_returns_with_cached_token_witness :
  exists tok w,
    token (mkState (Some "t0") ([] : Script.world) [CFetch "t0"]) = Some tok /\
    fetch_controller_data Script.client tok w
    = (Ok Script.controller_data, []) /\
    last [CFetch "t0"] = Some (CFetch tok).
Proof.
  apply (guard_returns_with_cached_token Script.client "user"
           (fetch_controller_data Script.client)
           (mkState (Some "t0") [Ok Script.controller_data] [])).
  reflexivity.
Defined.

(** *** The update methods of the two coordinators *)

Section Updates.

Context {W : Type}.
Variable client : Client W.
Variable username : string.
Variable translations : option Api.table.

(** X11: Neither update method lets a [StokerCloudError] out: whatever the
    wrapper raises of that class, the authentication error of a login in
    the guarded section included, reaches the coordinator as
    [UpdateFailed] with the same text, while the [ConfigEntryAuthFailed] of
    a retry that was rejected again passes as it is. *)
Theorem update_methods_error_classes (s0 : state W) :
  (forall e s',
     _async_update_data client username s0 = (Raise e, s') ->
     is_StokerCloudError e = false) /\
  (forall e s',
     _async_update_event_data client username translations s0 = (Raise e, s') ->
     is_StokerCloudError e = false) /\
  (forall m w1,
     token s0 = None ->
     login client username (world s0) = (Raise (StokerCloudAuthError m), w1) ->
     fst (_async_update_data client username s0) = Raise (UpdateFailed m)) /\
  (forall t1 w1 m w2 r2 w3 m2 w4,
     lazy_token client username s0 t1 w1 ->
     fetch_controller_data client t1 w1 = (Raise (StokerCloudAuthError m), w2) ->
     login client username w2 = (Ok r2, w3) ->
     fetch_controller_data client (Api.token r2) w3
     = (Raise (StokerCloudAuthError m2), w4) ->
     fst (_async_update_data client username s0)
     = Raise (ConfigEntryAuthFailed m2)).
Proof.
  split; [|split; [|split]].
  - intros e s'. unfold _async_update_data, try_except.
    destruct (_fetch_with_auth_retry _ _ _ s0) as [[a|e0] s1] eqn:Hrun;
      [discriminate|].
    destruct (is_StokerCloudError e0) eqn:He0.
    + unfold raise. intros [= <- _]. reflexivity.
    + intros [= <- _]. exact He0.
  - intros e s'. unfold _async_update_event_data, bind, try_except.
    destruct (_fetch_with_auth_retry _ _ _ s0) as [[a|e0] s1] eqn:Hrun;
      [discriminate|].
    destruct (is_StokerCloudError e0) eqn:He0.
    + unfold raise. intros [= <- _]. reflexivity.
    + intros [= <- _]. exact He0.
  - intros m w1 Ht Hl. unfold _async_update_data, try_except.
    rewrite (lazy_login_raises_run client username
               (fetch_controller_data client) s0 _ _ Ht Hl).
    reflexivity.
  - intros t1 w1 m w2 r2 w3 m2 w4 Hlazy H1 H2 H3.
    unfold _async_update_data, try_except.
    rewrite (InitFacts.retry_run client username _ s0 t1 m w1 w2 w3 r2
               Hlazy H1 H2), H3.
    reflexivity.
Qed.

End Updates.

(** X12: With the names [api.py] binds, a refresh that finds the cache empty
    raises the [NameError] of the unbound [LOGIN_PATH]: no request is sent,
    the error is neither [UpdateFailed] nor [ConfigEntryAuthFailed], and
    the cache stays empty, so that the next refresh does the same. *)
Theorem refresh_with_unbound_login_path {W : Type}
    (session : string -> string -> dict -> M W json) (username : string)
    (translations : option Api.table) (s0 : state W) :
  token s0 = None ->
  let client := StokerCloudClient session Api.api_globals in
  let s' := mkState None (world s0) (calls s0 ++ [CLogin]) in
  _async_update_data client username s0 = (Raise (NameError "LOGIN_PATH"), s') /\
  _async_update_event_data client username translations s0
  = (Raise (NameError "LOGIN_PATH"), s') /\
  token s' = None.
Proof.
  intros Ht. cbv zeta.
  unfold _async_update_data, _async_update_event_data, bind, try_except.
  rewrite !(lazy_login_raises_run (StokerCloudClient session Api.api_globals)
              username _ s0 (NameError "LOGIN_PATH") (world s0) Ht
              (ApiFacts.login_name_error session username (world s0))).
  repeat split.
Qed.

Lemma refresh_with_unbound_login_path_witness :
  let client := StokerCloudClient Script.session Api.api_globals in
  let s' :=
    mkState None [Script.login_ok "t1"; Ok Script.controller_data]
      ([] ++ [CLogin]) in
  _async_update_data client "user"
    (Script.fresh [Script.login_ok "t1"; Ok Script.controller_data])
  = (Raise (NameError "LOGIN_PATH"), s') /\
  _async_update_event_data client "user" None
    (Script.fresh [Script.login_ok "t1"; Ok Script.controller_data])
  = (Raise (NameError "LOGIN_PATH"), s') /\
  token s' = None.
Proof.
  apply (refresh_with_unbound_login_path Script.session "user" None
           (Script.fresh [Script.login_ok "t1"; Ok Script.controller_data])).
  reflexivity.
Defined.

(** *** The translation table at startup *)

(** X13: [load_translations] absorbs every [StokerCloudError] of the fetch; and
    with the names [api.py] binds and a session that raises only what its
    contract names, it raises nothing at all: it returns the table when the
    fetch returned one and [None] otherwise. *)
Theorem load_translations_absorbs {W : Type} (client : Client W)
    (session : string -> string -> dict -> M W json) (w : W) :
  (forall e w',
     load_translations client w = (Raise e, w') ->
     is_StokerCloudError e = false) /\
  (well_behaved session w ->
   exists r w',
     load_translations (StokerCloudClient session Api.api_globals) w
     = (Ok r, w') /\
     forall t,
       r = Some t <->
       Api.fetch_translations session Api.api_globals
         Const.DEFAULT_TRANSLATION_LANGUAGE w = (Ok t, w')).
Proof.
  split.
  - intros e w'. unfold load_translations, try_except, bind, ret.
    destruct (fetch_translations client _ w) as [[t|e0] w1]; [discriminate|].
    destruct (is_StokerCloudError e0) eqn:He0; [discriminate|].
    intros [= <- _]. exact He0.
  - intros Hwb. unfold load_translations, try_except, bind, ret.
    cbn [fetch_translations StokerCloudClient].
    destruct (Api.fetch_translations session Api.api_globals _ w)
      as [[t|e0] w1] eqn:Hf.
    + exists (Some t), w1. split; [reflexivity|].
      intros t'. split; congruence.
    + assert (He0 : is_StokerCloudError e0 = true).
      { revert Hf. unfold Api.fetch_translations, bind, lift. cbn.
        rewrite ApiMore.request_json_run.
        destruct (session "get" _ [] w) as [[p|e1] w2] eqn:Hs.
        - destruct (Api.classify p) as [p'|e2] eqn:Hc.
          + destruct p'; unfold raise, ret; intros [= <- _]; reflexivity.
          + intros [= <- _]. now apply ApiMore.classify_raise_inv in Hc.
        - pose proof (Hwb _ _ _ _ _ Hs) as Ht.
          destruct e1; try discriminate; intros [= <- _]; reflexivity. }
      rewrite He0. exists None, w1. split; [reflexivity|].
      intros t'. split; [discriminate|]. intros [=].
Qed.

Lemma load_translations_absorbs_witness :
  exists r w',
    load_translations (StokerCloudClient Script.session Api.api_globals)
      [Ok (JArr [])]
    = (Ok r, w') /\
    forall t,
      r = Some t <->
      Api.fetch_translations Script.session Api.api_globals
        Const.DEFAULT_TRANSLATION_LANGUAGE [Ok (JArr [])] = (Ok t, w').
Proof.
  apply (proj2 (load_translations_absorbs Script.client Script.session
                  [Ok (JArr [])])).
  apply (ApiMore.well_behaved_script [Ok (JArr [])]).
  - intros e [H|[]]. discriminate H.
  - exists []. reflexivity.
Defined.

(** *** The translated copy of a record *)

Lemma has_key_In (d : dict) (k : string) :
  has_key d k = true <-> In k (keys d).
Proof.
  unfold has_key, keys. induction d as [|[k0 v0] d IH]; simpl.
  - split; [discriminate|tauto].
  - destruct (String.eqb_spec k0 k) as [->|Hne]; [tauto|].
    rewrite IH. split; [tauto|]. intros [H|H]; [congruence|exact H].
Qed.

Lemma keys_dict_set (d : dict) (k : string) (v : json) :
  keys (dict_set d k v) = if has_key d k then keys d else keys d ++ [k].
Proof.
  unfold has_key, keys. induction d as [|[k0 v0] d IH]; simpl; [reflexivity|].
  destruct (String.eqb k0 k); simpl; [reflexivity|].
  rewrite IH. destruct (dict_get d k); reflexivity.
Qed.

Lemma dict_set_wf (d : dict) (k : string) (v : json) :
  dict_wf d -> dict_wf (dict_set d k v).
Proof.
  unfold dict_wf. rewrite keys_dict_set.
  destruct (has_key d k) eqn:Hk; [auto|].
  intros Hnd. apply NoDup_app. split; [exact Hnd|]. split.
  - intros x Hx Hx'. apply list_elem_of_In in Hx, Hx'.
    destruct Hx' as [<-|[]].
    apply has_key_In in Hx. congruence.
  - apply NoDup_singleton.
Qed.

(** The keys the loop over [items] leaves in [out]: those of [out] in their
    order, then new ones, each named after a key of [items]. *)
Lemma fold_translate_keys (t : Api.table) (items out : dict) :
  exists extra,
    keys (fold_left (translate_field t) items out) = keys out ++ extra /\
    (forall k, In k extra ->
               exists k0, In k0 (keys items) /\ k = k0 +:+ "_translated") /\
    (dict_wf out -> dict_wf (fold_left (translate_field t) items out)).
Proof.
  revert out. induction items as [|[k0 v0] items IH]; intros out; simpl.
  - exists []. rewrite app_nil_r. split; [reflexivity|]. split; [|auto].
    intros k [].
  - destruct (IH (translate_field t out (k0, v0))) as (extra & Hk & Hnew & Hwf).
    assert (Hstep :
      (keys (translate_field t out (k0, v0)) = keys out \/
       keys (translate_field t out (k0, v0))
       = keys out ++ [k0 +:+ "_translated"]) /\
      (dict_wf out -> dict_wf (translate_field t out (k0, v0)))).
    { unfold translate_field. simpl.
      destruct v0; try (split; [left; reflexivity|auto]).
      destruct (Api.table_get t s); [|split; [left; reflexivity|auto]].
      split; [|apply dict_set_wf].
      rewrite keys_dict_set. destruct (has_key out _); auto. }
    destruct Hstep as [[Hsame|Hadd] Hwf1].
    + exists extra. rewrite Hk, Hsame. split; [reflexivity|]. split; [|auto].
      intros k Hin. destruct (Hnew k Hin) as (k1 & Hk1 & ->). eauto.
    + exists ((k0 +:+ "_translated") :: extra).
      rewrite Hk, Hadd, <- app_assoc. split; [reflexivity|]. split; [|auto].
      intros k [<-|Hin].
      * exists k0. split; [now left|reflexivity].
      * destruct (Hnew k Hin) as (k1 & Hk1 & ->). eauto.
Qed.

(** X14: The translated copy keeps the keys of the record in their order and
    puts the added keys after them; each added key is a key of the record
    followed by [_translated]; and the copy of a record whose keys are
    distinct has distinct keys. *)
Theorem translate_event_keeps_order (t : Api.table) (event : dict) :
  exists extra,
    keys (translate_event t event) = keys event ++ extra /\
    (forall k, In k extra ->
               exists k0, In k0 (keys event) /\ k = k0 +:+ "_translated") /\
    (dict_wf event -> dict_wf (translate_event t event)).
Proof. apply fold_translate_keys. Qed.

(** *** The event batch *)

(** The batch of a refresh that succeeds, field by field. *)
Lemma event_batch_shape {W : Type}
    (session : string -> string -> dict -> M W json) (g : Api.namespace)
    (username : string) (translations : option Api.table)
    (s s' : state W) (data : dict) :
  _async_update_event_data (StokerCloudClient session g) username translations s
  = (Ok data, s') ->
  exists payload,
    data =
    [("raw", payload);
     ("events",
      JArr (map JObj (_apply_translations translations
                        (Api._extract_events payload))));
     ("count", JInt Const.DEFAULT_EVENT_COUNT);
     ("offset", JInt Const.DEFAULT_EVENT_OFFSET);
     ("translation_language", JStr Const.DEFAULT_TRANSLATION_LANGUAGE);
     ("translations_loaded",
      JBool (match translations with Some _ => true | None => false end))].
Proof.
  unfold _async_update_event_data, bind, try_except.
  destruct (_fetch_with_auth_retry _ _ _ s) as [[d|e] s1] eqn:Hrun.
  - apply InitFacts.fetch_with_auth_retry_ok in Hrun as (tok & w & w' & Hf).
    cbn [fetch_event_data StokerCloudClient] in Hf.
    apply InitFacts.fetch_event_data_ok in Hf as (url & payload & Hs & ->).
    unfold ret. intros H. inversion H; subst.
    exists payload. cbn. now rewrite InitFacts.dict_items_objects.
  - destruct (is_StokerCloudError e); discriminate.
Qed.

End InitMore.

(* ===================================================================== *)
(** ** The entities (sensor.py) *)
(* ===================================================================== *)

Module EntitiesFacts.
Import Entities Sensor.

(** *** [_find_id] *)

Lemma find_id_list (items : list json) (wanted_id : string) :
  _find_id (JArr items) wanted_id = find_in items wanted_id.
Proof. destruct items; reflexivity. Qed.

(** Records with another id are passed over. *)
Lemma find_in_skip (pre : list dict) (rest : list json) (wanted_id : string) :
  Forall (fun d => str (get d "id") <> wanted_id) pre ->
  find_in (map JObj pre ++ rest) wanted_id = find_in rest wanted_id.
Proof.
  induction 1 as [|d pre Hd _ IH]; simpl; [reflexivity|].
  destruct (String.eqb_spec (str (get d "id")) wanted_id); [contradiction|].
  exact IH.
Qed.

(** Where the loop stops. *)
Lemma find_in_cases (items : list json) (wanted_id : string) :
  (exists pre item post,
     items = map JObj pre ++ JObj item :: post /\
     str (get item "id") = wanted_id /\
     Forall (fun d => str (get d "id") <> wanted_id) pre /\
     find_in items wanted_id = Ok (Some item)) \/
  (exists ds,
     items = map JObj ds /\
     Forall (fun d => str (get d "id") <> wanted_id) ds /\
     find_in items wanted_id = Ok None) \/
  (exists pre v post,
     items = map JObj pre ++ v :: post /\ is_dict v = false /\
     Forall (fun d => str (get d "id") <> wanted_id) pre /\
     find_in items wanted_id = Raise (Api.no_get v)).
Proof.
  induction items as [|v items IH].
  - right. left. exists []. repeat split; constructor.
  - destruct v as [| b | z | s | l | d ];
      try (right; right; eexists [], _, items;
           repeat split; [constructor]).
    simpl. destruct (String.eqb_spec (str (get d "id")) wanted_id) as [He|Hne].
    + left. exists [], d, items. repeat split; [exact He | constructor].
    + destruct IH as [(pre & item & post & -> & Hi & Hpre & Hr)
                     |[(ds & -> & Hds & Hr)
                      |(pre & v & post & -> & Hv & Hpre & Hr)]].
      * left. exists (d :: pre), item, post.
        repeat split; [exact Hi | now constructor | exact Hr].
      * right. left. exists (d :: ds).
        repeat split; [now constructor | exact Hr].
      * right. right. exists (d :: pre), v, post.
        repeat split; [exact Hv | now constructor | exact Hr].
Qed.

(** X15: [_find_id] on a list returns the first record whose id, as text, is the
    wanted one; it returns [None] exactly when the list holds records only
    and none has the id; and it raises exactly when an element that is no
    record comes before any record with the id, the [AttributeError] of
    that element. *)
Theorem find_id_first_match (items : list json) (wanted_id : string) :
  (forall item,
     _find_id (JArr items) wanted_id = Ok (Some item) <->
     exists pre post,
       items = map JObj pre ++ JObj item :: post /\
       str (get item "id") = wanted_id /\
       Forall (fun d => str (get d "id") <> wanted_id) pre) /\
  (_find_id (JArr items) wanted_id = Ok None <->
   exists ds,
     items = map JObj ds /\
     Forall (fun d => str (get d "id") <> wanted_id) ds) /\
  (forall e,
     _find_id (JArr items) wanted_id = Raise e <->
     exists pre v post,
       items = map JObj pre ++ v :: post /\ is_dict v = false /\
       Forall (fun d => str (get d "id") <> wanted_id) pre /\
       e = Api.no_get v).
Proof.
  rewrite find_id_list.
  split; [|split].
  - intros item. split.
    + destruct (find_in_cases items wanted_id)
        as [(pre & item' & post & -> & Hi & Hpre & Hr)
           |[(ds & _ & _ & Hr)|(pre & v & post & _ & _ & _ & Hr)]];
        rewrite Hr; intros [=]. subst item'. eauto.
    + intros (pre & post & -> & Hi & Hpre).
      rewrite (find_in_skip _ _ _ Hpre). simpl.
      now rewrite (proj2 (String.eqb_eq _ _) Hi).
  - split.
    + destruct (find_in_cases items wanted_id)
        as [(pre & item' & post & _ & _ & _ & Hr)
           |[(ds & -> & Hds & Hr)|(pre & v & post & _ & _ & _ & Hr)]];
        rewrite Hr; intros [=]. eauto.
    + intros (ds & -> & Hds).
      rewrite <- (app_nil_r (map JObj ds)).
      now rewrite (find_in_skip _ _ _ Hds).
  - intros e. split.
    + destruct (find_in_cases items wanted_id)
        as [(pre & item' & post & _ & _ & _ & Hr)
           |[(ds & _ & _ & Hr)|(pre & v & post & -> & Hv & Hpre & Hr)]];
        rewrite Hr; intros [=]. subst e. eauto 8.
    + intros (pre & v & post & -> & Hv & Hpre & ->).
      rewrite (find_in_skip _ _ _ Hpre).
      destruct v; try reflexivity. discriminate.
Qed.

(** *** The readings of the sensors *)

Lemma value_of_found (item : dict) :
  value_of (Some item) = get item "value".
Proof. destruct item; reflexivity. Qed.

(** X16: By the shape of the section the sensor reads: a section that is absent,
    [None] or otherwise false reads [None]; a list of records reads the
    [value] of the first record with the id, or [None] when there is no such
    record; and anything else that is true makes the reading raise. *)
Theorem list_value_by_section_shape (data : dict) (section wanted_id : string) :
  (truthy (get data section) = false ->
   _get_list_value data section wanted_id = Ok JNull) /\
  (forall ds,
     get data section = JArr (map JObj ds) ->
     _get_list_value data section wanted_id
     = Ok (match List.find
                   (fun d => String.eqb (str (get d "id")) wanted_id) ds with
           | Some item => get item "value"
           | None => JNull
           end)) /\
  (truthy (get data section) = true -> is_list (get data section) = false ->
   exists e, _get_list_value data section wanted_id = Raise e).
Proof.
  unfold _get_list_value. split; [|split].
  - unfold _find_id. now intros ->.
  - intros ds ->. rewrite find_id_list.
    induction ds as [|d ds IH]; simpl; [reflexivity|].
    destruct (String.eqb (str (get d "id")) wanted_id); [|exact IH].
    now rewrite value_of_found.
  - unfold _find_id. intros ->. simpl.
    destruct (get data section) as [| b | z | s | l | [|[k v] d]];
      try discriminate; eauto.
Qed.

Lemma list_value_ok (data : dict) (section wanted_id : string) :
  (get data section = JNull \/
   exists ds, get data section = JArr (map JObj ds)) ->
  exists v, _get_list_value data section wanted_id = Ok v.
Proof.
  unfold _get_list_value. intros [->|(ds & ->)]; [simpl; eauto|].
  rewrite find_id_list, <- (app_nil_r (map JObj ds)).
  induction ds as [|d ds IH]; simpl; [eauto|].
  destruct (String.eqb (str (get d "id")) wanted_id); [eauto | exact IH].
Qed.

(** X17: A snapshot in which each of the five sections the table reads from is
    absent or a list of records: no sensor of the table raises on it. *)
Theorem sensors_read_well_shaped_snapshot (data : dict) :
  Forall (fun section =>
            get data section = JNull \/
            exists ds, get data section = JArr (map JObj ds))
    ["weatherdata"; "boilerdata"; "hopperdata"; "dhwdata"; "frontdata"] ->
  Forall (fun spec => exists v, reading spec data = Ok v) SENSORS.
Proof.
  intros Hshape.
  repeat match type of Hshape with
         | Forall _ (_ :: _) =>
             let H := fresh "Hsec" in
             apply Forall_cons_1 in Hshape as [H Hshape]
         end.
  unfold SENSORS.
  repeat (apply Forall_cons_2;
          [unfold reading; cbn [reads];
           first [ now apply list_value_ok
                 | unfold _get_front_value;
                   now apply (list_value_ok data "frontdata")
                 | eauto ] |]).
  apply Forall_nil_2.
Qed.

Lemma sensors_read_well_shaped_snapshot_witness :
  Forall (fun spec =>
            exists v,
              reading spec
                [("boilerdata",
                  JArr [JObj [("id", JStr "3"); ("value", JStr "120")]])]
              = Ok v)
    SENSORS.
Proof.
  apply (sensors_read_well_shaped_snapshot
           [("boilerdata",
             JArr [JObj [("id", JStr "3"); ("value", JStr "120")]])]).
  repeat (apply Forall_cons_2;
          [first [ left; reflexivity
                 | right;
                   exists [[("id", JStr "3"); ("value", JStr "120")]];
                   reflexivity ] |]).
  apply Forall_nil_2.
Defined.

(** *** [device_info] *)

Lemma append_nonempty_l (a b : string) : a <> "" -> a +:+ b <> "".
Proof. destruct a; [congruence | discriminate]. Qed.

Lemma str_int_nonempty (z : Z) : str_int z <> "".
Proof.
  unfold str_int. destruct (Z.to_int z) as [d|d]; simpl; [|discriminate].
  destruct d; discriminate.
Qed.

(** The text of a value that is true is not empty. *)
Lemma str_truthy_nonempty (v : json) : truthy v = true -> str v <> "".
Proof.
  destruct v as [| [|] | z | s | l | d ]; simpl; try discriminate.
  - intros _. apply str_int_nonempty.
  - destruct s; discriminate.
Qed.

Lemma py_or_truthy (a b : json) :
  truthy a = true \/ truthy b = true -> truthy (py_or a b) = true.
Proof. unfold py_or. destruct (truthy a) eqn:Ha; intuition congruence. Qed.

(** X18: There is no device exactly when neither the serial nor the alias of the
    snapshot is true (absent, [None], empty or zero).  A device is
    identified in the domain of the integration by the text of the serial,
    or of the alias when there is no serial; identifier, name and model are
    never empty, and the model is [pellet furnace] when the snapshot names
    none. *)
Theorem device_info_identity (coordinator_data : option dict) :
  let data := data_or_empty coordinator_data in
  let serial := get data "serial" in
  let alias := get data "alias" in
  (device_info coordinator_data = None <->
   truthy serial = false /\ truthy alias = false) /\
  (forall info,
     device_info coordinator_data = Some info ->
     fst (identifier info) = "stokercloud" /\
     snd (identifier info)
     = (if truthy serial then str serial else str alias) /\
     snd (identifier info) <> "" /\
     device_name info <> "" /\
     model info <> "" /\
     (truthy (get data "model") = false -> model info = "pellet furnace")).
Proof.
  cbv zeta. unfold device_info.
  set (data := data_or_empty coordinator_data).
  destruct (truthy (get data "serial")) eqn:Hs;
    destruct (truthy (get data "alias")) eqn:Ha; cbn [negb andb].
  4: { split; [tauto|]. intros info [=]. }
  all: split; [split; [discriminate | intros [? ?]; discriminate]|].
  all: intros info [= <-]; cbn [identifier device_name model fst snd].
  all: unfold py_or; rewrite ?Hs, ?Ha.
  all: split; [reflexivity|]; split; [reflexivity|].
  all: split; [now apply str_truthy_nonempty|].
  all: split;
    [ first [ apply append_nonempty_l; now apply str_truthy_nonempty
            | now apply str_truthy_nonempty ] |].
  all: destruct (truthy (get data "model")) eqn:Hm;
    (split; [|first [discriminate | reflexivity]]);
    first [ now apply str_truthy_nonempty | discriminate ].
Qed.

(** *** The unique ids of the entities *)

Lemma append_inj_r (p a b : string) : p +:+ a = p +:+ b -> a = b.
Proof. induction p as [|c p IH]; simpl; [auto|]. intros [=]. auto. Qed.

Lemma NoDup_map_prefix (p : string) (l : list string) :
  NoDup l -> NoDup (map (fun k => p +:+ k) l).
Proof.
  induction 1 as [|k l Hk Hl IH]; simpl; constructor; [|exact IH].
  intros Hin. apply Hk. apply list_elem_of_In in Hin. apply list_elem_of_In.
  apply in_map_iff in Hin as (k' & Heq & Hin).
  apply append_inj_r in Heq. now subst k'.
Qed.

(** X19: No two entities of an entry share a unique id, whatever the ids of the
    entry are and whether or not the event log is set up. *)
Theorem unique_ids_distinct (unique_id : option string) (entry_id : string)
    (event_coordinator : bool) :
  NoDup (unique_ids unique_id entry_id event_coordinator) /\
  length (unique_ids unique_id entry_id event_coordinator)
  = (length SENSORS + if event_coordinator then 1 else 0)%nat.
Proof.
  split.
  - unfold unique_ids.
    set (uid := entry_uid unique_id entry_id).
    assert (Hkeys : NoDup (map key SENSORS ++ ["event_log"]))
      by (vm_compute; repeat constructor;
          rewrite list_elem_of_In; simpl; intuition discriminate).
    apply (NoDup_map_prefix "_") in Hkeys.
    apply (NoDup_map_prefix uid) in Hkeys.
    rewrite !map_app, !map_map in Hkeys.
    destruct event_coordinator; [exact Hkeys|].
    rewrite app_nil_r. now apply NoDup_app in Hkeys as [? _].
  - unfold unique_ids. rewrite length_app, length_map.
    now destruct event_coordinator.
Qed.

(** *** The event log entity *)

Lemma dict_items_length (events : list json) :
  (length (Api.dict_items events) <= length events)%nat /\
  (length (Api.dict_items events) = length events <->
   Forall (fun v => is_dict v = true) events).
Proof.
  induction events as [|v events [IHle IHeq]]; simpl.
  - split; [lia|]. split; [constructor | reflexivity].
  - destruct v; simpl;
      try (split; [lia|]; split;
           [lia | intros H; apply Forall_cons_1 in H as [? _]; discriminate]).
    split; [lia|]. split.
    + intros H. constructor; [reflexivity|]. apply IHeq. lia.
    + intros H. apply Forall_cons_1 in H as [_ H]. apply IHeq in H. lia.
Qed.

(** What the truncation keeps, for the attributes. *)
Lemma truncate_prefix (cleaned : list dict) :
  exists k : nat,
    (k <= length cleaned)%nat /\ (cleaned <> [] -> (1 <= k)%nat) /\
    _truncate_events_for_attributes cleaned
    = (firstn k cleaned, negb (_size cleaned <=? _MAX_STATE_ATTR_BYTES)) /\
    (_size (firstn 1 cleaned) <= _MAX_STATE_ATTR_BYTES ->
     _size (firstn k cleaned) <= _MAX_STATE_ATTR_BYTES).
Proof.
  destruct cleaned as [|d cleaned].
  - exists 0%nat. repeat split; [simpl; lia | congruence |].
    intros _. vm_compute. discriminate.
  - destruct (SensorFacts.truncate_to_spec _MAX_STATE_ATTR_BYTES (d :: cleaned))
      as (k & Hk & Hrun & Hfit & _); [discriminate|].
    exists k. repeat split; [lia | lia | exact Hrun |].
    intros H. now apply Hfit.
Qed.

(** The attributes of a batch whose [events] is a list. *)
Lemma event_attributes_run (data : dict) (events : list json) :
  get data "events" = JArr events ->
  let attrs := extra_state_attributes (Some data) in
  let cleaned := Api.dict_items events in
  keys attrs
  = ["events"; "events_total"; "events_truncated"]
    ++ List.filter (has_key data)
         ["count"; "offset"; "translation_language"; "translations_loaded"] /\
  (exists k : nat,
     (k <= length cleaned)%nat /\ (cleaned <> [] -> (1 <= k)%nat) /\
     get attrs "events" = JArr (map JObj (firstn k cleaned)) /\
     (_size (firstn 1 cleaned) <= _MAX_STATE_ATTR_BYTES ->
      _size (firstn k cleaned) <= _MAX_STATE_ATTR_BYTES)) /\
  get attrs "events_total" = JInt (Z.of_nat (length cleaned)) /\
  get attrs "events_truncated"
  = JBool (negb (_size cleaned <=? _MAX_STATE_ATTR_BYTES)) /\
  (forall key,
     In key ["count"; "offset"; "translation_language"; "translations_loaded"] ->
     dict_get attrs key = dict_get data key).
Proof.
  intros Hev. cbv zeta. unfold extra_state_attributes.
  cbn [data_or_empty]. rewrite Hev.
  destruct (truncate_prefix (Api.dict_items events))
    as (k & Hk & Hk1 & -> & Hfit).
  cbn [copy_keys]. unfold has_key, get, get_default.
  destruct (dict_get data "count") as [v1|] eqn:H1;
    destruct (dict_get data "offset") as [v2|] eqn:H2;
    destruct (dict_get data "translation_language") as [v3|] eqn:H3;
    destruct (dict_get data "translations_loaded") as [v4|] eqn:H4;
    cbn; rewrite ?H1, ?H2, ?H3, ?H4; cbn.
  all: split; [reflexivity|].
  all: split; [exists k; repeat split; assumption|].
  all: split; [reflexivity|]; split; [reflexivity|].
  all: intros key [<-|[<-|[<-|[<-|[]]]]]; cbn; congruence.
Qed.

(** X20: When the batch holds a list under [events], the attributes are, in this
    order: [events], a prefix of the records of that list, not empty when
    there is a record and within the budget when the first record alone is;
    [events_total], the number of records of the list; [events_truncated],
    whether all the records together are over the budget; and then those of
    [count], [offset], [translation_language] and [translations_loaded] the
    batch has, with the values of the batch. *)
Theorem event_attributes_shape (data : dict) (events : list json) :
  get data "events" = JArr events ->
  let attrs := extra_state_attributes (Some data) in
  let cleaned := Api.dict_items events in
  keys attrs
  = ["events"; "events_total"; "events_truncated"]
    ++ List.filter (has_key data)
         ["count"; "offset"; "translation_language"; "translations_loaded"] /\
  (exists k : nat,
     (k <= length cleaned)%nat /\ (cleaned <> [] -> (1 <= k)%nat) /\
     get attrs "events" = JArr (map JObj (firstn k cleaned)) /\
     (_size (firstn 1 cleaned) <= _MAX_STATE_ATTR_BYTES ->
      _size (firstn k cleaned) <= _MAX_STATE_ATTR_BYTES)) /\
  get attrs "events_total" = JInt (Z.of_nat (length cleaned)) /\
  get attrs "events_truncated"
  = JBool (negb (_size cleaned <=? _MAX_STATE_ATTR_BYTES)) /\
  (forall key,
     In key ["count"; "offset"; "translation_language"; "translations_loaded"] ->
     dict_get attrs key = dict_get data key).
Proof. exact (event_attributes_run data events). Qed.

(** X21: The state of the entity counts every element of the list, the attribute
    [events_total] only the records: the total is at most the state, and
    they agree exactly when every element is a record. *)
Theorem events_total_le_state (coordinator_data : option dict) (n : Z) :
  native_value coordinator_data = Some n ->
  exists (events : list json) (total : Z),
    get (data_or_empty coordinator_data) "events" = JArr events /\
    n = Z.of_nat (length events) /\
    get (extra_state_attributes coordinator_data) "events_total" = JInt total /\
    0 <= total <= n /\
    (total = n <-> Forall (fun v => is_dict v = true) events).
Proof.
  unfold native_value.
  destruct (get (data_or_empty coordinator_data) "events")
    as [| | | | events |] eqn:Hev; try discriminate.
  intros [= <-].
  exists events, (Z.of_nat (length (Api.dict_items events))).
  split; [reflexivity|]. split; [reflexivity|].
  assert (Hattrs : extra_state_attributes coordinator_data
                   = extra_state_attributes (Some (data_or_empty coordinator_data)))
    by (destruct coordinator_data; reflexivity).
  rewrite Hattrs.
  destruct (event_attributes_run _ _ Hev) as (_ & _ & Htotal & _).
  split; [exact Htotal|].
  destruct (dict_items_length events) as [Hle Heq].
  split; [lia|]. rewrite <- Heq. lia.
Qed.

(** X22: The event log entity on a batch of [_async_update_event_data]: the
    state is the number of events of the batch and equals [events_total];
    the attributes are the three of the event list and then the count, the
    offset, the language and the flag the refresh stamped on the batch; the
    raw payload of the batch is not among them. *)
Theorem event_log_of_batch {W : Type}
    (session : string -> string -> dict -> M W json) (g : Api.namespace)
    (username : string) (translations : option Api.table)
    (s s' : Init.state W) (data : dict) :
  Init._async_update_event_data (Init.StokerCloudClient session g) username
    translations s
  = (Ok data, s') ->
  exists events : list dict,
    get data "events" = JArr (map JObj events) /\
    native_value (Some data) = Some (Z.of_nat (length events)) /\
    let attrs := extra_state_attributes (Some data) in
    keys attrs
    = ["events"; "events_total"; "events_truncated"; "count"; "offset";
       "translation_language"; "translations_loaded"] /\
    get attrs "events_total" = JInt (Z.of_nat (length events)) /\
    get attrs "count" = JInt Const.DEFAULT_EVENT_COUNT /\
    get attrs "offset" = JInt Const.DEFAULT_EVENT_OFFSET /\
    get attrs "translation_language"
    = JStr Const.DEFAULT_TRANSLATION_LANGUAGE /\
    get attrs "translations_loaded"
    = JBool (match translations with Some _ => true | None => false end).
Proof.
  intros Hrun. apply InitMore.event_batch_shape in Hrun as (payload & ->).
  exists (Init._apply_translations translations (Api._extract_events payload)).
  split; [reflexivity|]. split.
  - unfold native_value. cbn. now rewrite length_map.
  - cbv zeta. unfold extra_state_attributes. cbn [data_or_empty].
    change (get _ "events")
      with (JArr (map JObj (Init._apply_translations translations
                              (Api._extract_events payload)))).
    cbv iota beta. rewrite InitFacts.dict_items_objects.
    destruct (_truncate_events_for_attributes _) as [kept flag].
    cbn. repeat split.
Qed.

Lemma event_log_of_batch_witness :
  exists events : list dict,
    get Scenario.event_batch "events" = JArr (map JObj events) /\
    native_value (Some Scenario.event_batch) = Some (Z.of_nat (length events)) /\
    let attrs := extra_state_attributes (Some Scenario.event_batch) in
    keys attrs
    = ["events"; "events_total"; "events_truncated"; "count"; "offset";
       "translation_language"; "translations_loaded"] /\
    get attrs "events_total" = JInt (Z.of_nat (length events)) /\
    get attrs "count" = JInt Const.DEFAULT_EVENT_COUNT /\
    get attrs "offset" = JInt Const.DEFAULT_EVENT_OFFSET /\
    get attrs "translation_language"
    = JStr Const.DEFAULT_TRANSLATION_LANGUAGE /\
    get attrs "translations_loaded" = JBool true.
Proof.
  apply (event_log_of_batch Script.session Api.api_globals "user"
           (Some [("IGN", "Ignition")]) Scenario.event_refresh_start
           (snd Scenario.event_refresh) Scenario.event_batch).
  vm_compute. reflexivity.
Defined.

Lemma event_attributes_shape_witness :
  let attrs := extra_state_attributes (Some Scenario.event_batch) in
  let cleaned := Api.dict_items [JObj [("type", JStr "IGN");
                                       ("type_translated", JStr "Ignition")]] in
  keys attrs
  = ["events"; "events_total"; "events_truncated"]
    ++ List.filter (has_key Scenario.event_batch)
         ["count"; "offset"; "translation_language"; "translations_loaded"] /\
  (exists k : nat,
     (k <= length cleaned)%nat /\ (cleaned <> [] -> (1 <= k)%nat) /\
     get attrs "events" = JArr (map JObj (firstn k cleaned)) /\
     (_size (firstn 1 cleaned) <= _MAX_STATE_ATTR_BYTES ->
      _size (firstn k cleaned) <= _MAX_STATE_ATTR_BYTES)) /\
  get attrs "events_total" = JInt (Z.of_nat (length cleaned)) /\
  get attrs "events_truncated"
  = JBool (negb (_size cleaned <=? _MAX_STATE_ATTR_BYTES)) /\
  (forall key,
     In key ["count"; "offset"; "translation_language"; "translations_loaded"] ->
     dict_get attrs key = dict_get Scenario.event_batch key).
Proof.
  apply (event_attributes_shape Scenario.event_batch
           [JObj [("type", JStr "IGN"); ("type_translated", JStr "Ignition")]]).
  reflexivity.
Defined.

Lemma events_total_le_state_witness :
  exists (events : list json) (total : Z),
    get (data_or_empty (Some [("events", JArr [JObj []; JInt 3])])) "events"
    = JArr events /\
    2 = Z.of_nat (length events) /\
    get (extra_state_attributes (Some [("events", JArr [JObj []; JInt 3])]))
      "events_total" = JInt total /\
    0 <= total <= 2 /\
    (total = 2 <-> Forall (fun v => is_dict v = true) events).
Proof.
  apply (events_total_le_state (Some [("events", JArr [JObj []; JInt 3])]) 2).
  reflexivity.
Defined.

(** *** Truncation and longer lists *)

(** X23: Records added at the end of the list never remove records from what is
    kept: what is kept of a list is a prefix of what is kept of the list
    with more records after it. *)
Theorem truncate_events_append_stable (events more : list dict) :
  fst (_truncate_events_for_attributes events)
  `prefix_of` fst (_truncate_events_for_attributes (events ++ more)).
Proof.
  unfold _truncate_events_for_attributes.
  set (limit := _MAX_STATE_ATTR_BYTES). clearbody limit.
  destruct events as [|d events]; [eexists; reflexivity|].
  destruct (SensorFacts.truncate_to_spec limit (d :: events))
    as (ka & Hka & -> & Hfita & Holda); [discriminate|].
  destruct (SensorFacts.truncate_to_spec limit ((d :: events) ++ more))
    as (kb & Hkb & -> & Hfitb & Holdb); [discriminate|].
  cbn [fst].
  assert (Hsame : forall j, (j <= length (d :: events))%nat ->
            firstn j ((d :: events) ++ more) = firstn j (d :: events)).
  { intros j Hj. rewrite firstn_app.
    replace (j - length (d :: events))%nat with 0%nat by lia.
    cbn [firstn]. apply app_nil_r. }
  assert (Hle : (ka <= kb)%nat).
  { destruct (Z_le_gt_dec (_size (firstn 1 (d :: events))) limit) as [Hfit|Hover].
    - destruct (Hfita Hfit) as [Hin _].
      destruct (Hfitb ltac:(rewrite Hsame by (simpl; lia); exact Hfit))
        as [_ Hmax].
      destruct (le_lt_dec ka kb) as [|Hlt]; [assumption|].
      specialize (Hmax ka ltac:(rewrite length_app; lia)).
      rewrite Hsame in Hmax by lia. lia.
    - rewrite (Holda ltac:(lia)). lia. }
  exists (skipn ka (firstn kb ((d :: events) ++ more))).
  rewrite <- (Hsame ka) by lia.
  rewrite <- (firstn_skipn ka (firstn kb ((d :: events) ++ more))) at 1.
  f_equal. rewrite firstn_firstn. f_equal. lia.
Qed.

End EntitiesFacts.

(* ===================================================================== *)
(** ** The configuration flow (config_flow.py) *)
(* ===================================================================== *)

Module ConfigFlowFacts.
Import Api Init Entities ConfigFlow Terms.

Section Flow.

Context {W : Type}.
Variable session : string -> string -> dict -> M W json.
Variable configured : string -> bool.

(** *** [async_step_user] *)

(** X24: With the names [api.py] binds, a submitted form always comes back with
    the error [unknown], whatever the user typed and whatever the server
    would answer: [login] raises on the unbound [LOGIN_PATH] before any
    request is sent, so no entry is ever created. *)
Theorem flow_with_unbound_login_path (text : string) (w : W) :
  async_step_user (StokerCloudClient session api_globals) configured
    (Some text) w
  = (Ok (ShowForm [("base", "unknown")]), w).
Proof.
  unfold async_step_user, _validate_input, bind.
  cbn [Init.login StokerCloudClient].
  now rewrite ApiFacts.login_name_error.
Qed.

End Flow.

End ConfigFlowFacts.

(* ===================================================================== *)
(** ** Concurrent callers: bounds and progress *)
(* ===================================================================== *)

Module ConcMore.
Import Conc Terms.

Local Open Scope nat_scope.

(** Replacing one task changes a sum by the difference of its measure. *)
Lemma total_insert (f : task -> nat) (l : list task) (i : nat) (t t' : task) :
  l !! i = Some t ->
  total f (<[i := t']> l) + f t = total f l + f t'.
Proof.
  unfold total. revert i.
  induction l as [|x l IH]; intros [|i]; simpl; try discriminate.
  - intros [= ->]. lia.
  - intros H. specialize (IH i H). lia.
Qed.

Lemma total_replicate (f : task -> nat) (n : nat) (t : task) :
  total f (replicate n t) = n * f t.
Proof. unfold total. induction n as [|n IH]; simpl; lia. Qed.

Ltac step_cases t sh o :=
  destruct t as [p ft], sh as [tk lk lg fl rj];
  unfold task_step, logins_left, rejections_left, owes_login, login_causes;
  cbn;
  destruct p, o as [|[tk'|e]|[v|e]]; try discriminate; cbn;
  try destruct lk; try destruct tk;
  try destruct (is_StokerCloudAuthError e);
  try discriminate; intros H; inversion H; subst; cbn.

(** What one step of a task does to the counters. *)
Lemma task_step_budget (sh sh' : shared) (t t' : task) (o : outcome) :
  task_step sh t o = Some (sh', t') ->
  logins sh' + logins_left t' <= logins sh + logins_left t /\
  rejections sh' + rejections_left t' <= rejections sh + rejections_left t.
Proof. step_cases t sh o; lia. Qed.

Lemma task_step_causes (sh sh' : shared) (t t' : task) (o : outcome) :
  task_step sh t o = Some (sh', t') ->
  logins sh' + owes_login t' + login_causes sh
  <= logins sh + owes_login t + login_causes sh' /\
  (token sh <> None ->
   token sh' <> None /\
   logins sh' + owes_login t' + rejections sh
   <= logins sh + owes_login t + rejections sh').
Proof.
  step_cases t sh o;
    (split; [lia | intros Htok;
                   first [congruence | split; [congruence | lia]]]).
Qed.

(** *** The number of logins *)

Lemma budget_step (n : nat) (s s' : system) (ev : event) :
  logins (vars s) + total logins_left (tasks s) <= 2 * n /\
  rejections (vars s) + total rejections_left (tasks s) <= n ->
  step s ev = Some s' ->
  logins (vars s') + total logins_left (tasks s') <= 2 * n /\
  rejections (vars s') + total rejections_left (tasks s') <= n.
Proof.
  intros [Hl Hr] Hstep.
  destruct (ConcFacts.lookup_step s s' ev Hstep) as (t & t' & Ht & Hts & ->).
  destruct (task_step_budget _ _ _ _ _ Hts) as [Hl' Hr'].
  pose proof (total_insert logins_left _ _ _ t' Ht).
  pose proof (total_insert rejections_left _ _ _ t' Ht).
  lia.
Qed.

(** X28: Whatever the schedule and whatever the server answers, [n] callers
    issue at most [2 * n] logins and at most [n] of their first attempts
    are rejected; more precisely, the logins issued and those the callers
    can still issue from where they wait never exceed [2 * n] together. *)
Theorem concurrent_logins_bounded (cached : option string) (n : nat)
    (evs : list event) (s : system) :
  run evs (init cached n) = Some s ->
  logins (vars s) + total logins_left (tasks s) <= 2 * n /\
  rejections (vars s) + total rejections_left (tasks s) <= n /\
  logins (vars s) <= 2 * n /\ rejections (vars s) <= n.
Proof.
  intros Hrun.
  assert (H : logins (vars s) + total logins_left (tasks s) <= 2 * n /\
              rejections (vars s) + total rejections_left (tasks s) <= n).
  { refine (ConcFacts.run_invariant _ (budget_step n) evs _ s _ Hrun).
    unfold init. cbn [vars tasks logins rejections].
      rewrite !total_replicate. cbn. lia. }
  destruct H. repeat split; lia.
Qed.

Lemma causes_step (s s' : system) (ev : event) :
  logins (vars s) + total owes_login (tasks s) <= login_causes (vars s) ->
  step s ev = Some s' ->
  logins (vars s') + total owes_login (tasks s') <= login_causes (vars s').
Proof.
  intros Hinv Hstep.
  destruct (ConcFacts.lookup_step s s' ev Hstep) as (t & t' & Ht & Hts & ->).
  destruct (task_step_causes _ _ _ _ _ Hts) as [Hc _].
  pose proof (total_insert owes_login _ _ _ t' Ht).
  lia.
Qed.

Lemma cached_causes_step (s s' : system) (ev : event) :
  token (vars s) <> None /\
  logins (vars s) + total owes_login (tasks s) <= rejections (vars s) ->
  step s ev = Some s' ->
  token (vars s') <> None /\
  logins (vars s') + total owes_login (tasks s') <= rejections (vars s').
Proof.
  intros [Htok Hinv] Hstep.
  destruct (ConcFacts.lookup_step s s' ev Hstep) as (t & t' & Ht & Hts & ->).
  destruct (task_step_causes _ _ _ _ _ Hts) as [_ Hc].
  destruct (Hc Htok) as [Htok' Hle].
  pose proof (total_insert owes_login _ _ _ t' Ht).
  split; [exact Htok' | lia].
Qed.

(** X29: Every login has a cause.  Callers that start on a cache that holds a
    token issue at most one login per rejected first attempt, and the cache
    never becomes empty; callers that start on an empty cache issue, beyond
    those, at most one login per failed login and the one that fills the
    cache. *)
Theorem concurrent_logins_have_causes (cached : option string) (n : nat)
    (evs : list event) (s : system) :
  run evs (init cached n) = Some s ->
  match cached with
  | Some _ =>
      token (vars s) <> None /\ logins (vars s) <= rejections (vars s)
  | None =>
      logins (vars s) <= rejections (vars s) + failed_logins (vars s) + 1
  end.
Proof.
  intros Hrun. destruct cached as [t0|].
  - assert (H : token (vars s) <> None /\
                logins (vars s) + total owes_login (tasks s)
                <= rejections (vars s)).
    { refine (ConcFacts.run_invariant _ cached_causes_step evs _ s _ Hrun).
      unfold init. cbn [vars tasks logins rejections token].
      rewrite total_replicate. cbn. split; [discriminate | lia]. }
    destruct H. split; [assumption | lia].
  - assert (H : logins (vars s) + total owes_login (tasks s)
                <= login_causes (vars s)).
    { refine (ConcFacts.run_invariant _ causes_step evs _ s _ Hrun).
      unfold init, login_causes.
      cbn [vars tasks logins rejections failed_logins token locked].
      rewrite total_replicate. cbn. lia. }
    unfold login_causes in H.
    destruct (token (vars s)); [lia|]. destruct (locked (vars s)); lia.
Qed.

(** *** The lock and progress *)

Lemma holder_step (s s' : system) (ev : event) :
  lock_has_holder s -> step s ev = Some s' -> lock_has_holder s'.
Proof.
  intros Hinv Hstep Hlocked.
  destruct (ConcFacts.lookup_step s s' ev Hstep) as (t & t' & Ht & Hts & Htasks).
  pose proof (ConcFacts.task_step_lock _ _ _ _ _ Hts) as Hlock.
  assert (Hi : tasks s' !! fst ev = Some t').
  { rewrite Htasks. apply list_lookup_insert_eq. eapply lookup_lt_Some; eauto. }
  destruct (login_in_flight t) eqn:Hft, (login_in_flight t') eqn:Hft'.
  - destruct Hlock.
  - congruence.
  - eauto.
  - rewrite Hlock in Hlocked. destruct (Hinv Hlocked) as (j & tj & Hj & Hfj).
    exists j, tj. split; [|exact Hfj].
    rewrite Htasks, list_lookup_insert_ne; [exact Hj|].
    intros <-. congruence.
Qed.

(** X30: The callers never block one another for good.  The lock is taken
    exactly while a login is in flight; a caller that has not finished can
    be resumed, unless it waits for the lock while another caller holds it,
    and then that caller can be resumed and frees the lock with that step,
    whether its login returns or raises. *)
Theorem callers_never_deadlock (cached : option string) (n : nat)
    (evs : list event) (s : system) :
  run evs (init cached n) = Some s ->
  (locked (vars s) = true <->
   exists j t, tasks s !! j = Some t /\ login_in_flight t = true) /\
  forall i t,
    tasks s !! i = Some t -> (forall r, at_pc t <> Done r) ->
    (exists o s', step s (i, o) = Some s') \/
    (locked (vars s) = true /\
     exists j tj,
       tasks s !! j = Some tj /\ login_in_flight tj = true /\
       forall r, exists s',
         step s (j, LoginReturned r) = Some s' /\ locked (vars s') = false).
Proof.
  intros Hrun.
  destruct (ConcFacts.run_mutex_settled cached n evs s Hrun) as [[Hfree _] _].
  assert (Hholder : lock_has_holder s).
  { refine (ConcFacts.run_invariant _ holder_step evs _ s _ Hrun).
    intros H. discriminate H. }
  assert (Hresume : forall j tj r,
            tasks s !! j = Some tj -> login_in_flight tj = true ->
            exists s', step s (j, LoginReturned r) = Some s' /\
                       locked (vars s') = false).
  { intros j [p ft] r Hj Hfj. unfold step. cbn [fst snd]. rewrite Hj.
    unfold task_step. cbn [at_pc first_token].
    destruct p; try discriminate Hfj; destruct r; eauto. }
  split.
  - split; [exact Hholder|].
    intros (j & t & Hj & Hfj). destruct (locked (vars s)) eqn:Hl; [reflexivity|].
    rewrite (Hfree eq_refl j t Hj) in Hfj. discriminate.
  - intros i [p ft] Hi Hnot.
    assert (Hgo : forall o sh' t',
              task_step (vars s) (mkTask p ft) o = Some (sh', t') ->
              exists o s', step s (i, o) = Some s').
    { intros o sh' t' Hts. exists o. unfold step. cbn [fst snd].
      rewrite Hi, Hts. eauto. }
    destruct p as [| |tok| | |tok|r].
    + destruct (locked (vars s)) eqn:Hl.
      * right. split; [reflexivity|].
        destruct (Hholder Hl) as (j & tj & Hj & Hfj).
        exists j, tj. eauto.
      * left. apply (Hgo Acquired
                       (match token (vars s) with
                        | None => mkShared (token (vars s)) true
                                    (S (logins (vars s)))
                                    (failed_logins (vars s))
                                    (rejections (vars s))
                        | Some _ => vars s
                        end)
                       (match token (vars s) with
                        | None => mkTask Login ft
                        | Some tok => mkTask (Fetch1 tok) (Some tok)
                        end)).
        unfold task_step. cbn [at_pc first_token]. rewrite Hl.
        destruct (token (vars s)); reflexivity.
    + left. eapply (Hgo (LoginReturned (Ok ""))). reflexivity.
    + left. eapply (Hgo (FetchReturned (Ok JNull))). reflexivity.
    + destruct (locked (vars s)) eqn:Hl.
      * right. split; [reflexivity|].
        destruct (Hholder Hl) as (j & tj & Hj & Hfj).
        exists j, tj. eauto.
      * left. eapply (Hgo Acquired).
        unfold task_step. cbn [at_pc first_token]. rewrite Hl. reflexivity.
    + left. eapply (Hgo (LoginReturned (Ok ""))). reflexivity.
    + left. eapply (Hgo (FetchReturned (Ok JNull))). reflexivity.
    + exfalso. now apply (Hnot r).
Qed.

Lemma concurrent_logins_bounded_witness :
  logins (vars Scenario.two_rejected_callers_end)
  + total logins_left (tasks Scenario.two_rejected_callers_end) <= 2 * 2 /\
  rejections (vars Scenario.two_rejected_callers_end)
  + total rejections_left (tasks Scenario.two_rejected_callers_end) <= 2 /\
  logins (vars Scenario.two_rejected_callers_end) <= 2 * 2 /\
  rejections (vars Scenario.two_rejected_callers_end) <= 2.
Proof.
  apply (concurrent_logins_bounded None 2 two_rejected_callers
           Scenario.two_rejected_callers_end).
  reflexivity.
Defined.

Lemma concurrent_logins_have_causes_witness :
  logins (vars Scenario.two_rejected_callers_end)
  <= rejections (vars Scenario.two_rejected_callers_end)
     + failed_logins (vars Scenario.two_rejected_callers_end) + 1.
Proof.
  apply (concurrent_logins_have_causes None 2 two_rejected_callers
           Scenario.two_rejected_callers_end).
  reflexivity.
Defined.

Lemma callers_never_deadlock_witness :
  (locked (vars Scenario.login_pending) = true <->
   exists j t,
     tasks Scenario.login_pending !! j = Some t /\ login_in_flight t = true) /\
  forall i t,
    tasks Scenario.login_pending !! i = Some t ->
    (forall r, at_pc t <> Done r) ->
    (exists o s', step Scenario.login_pending (i, o) = Some s') \/
    (locked (vars Scenario.login_pending) = true /\
     exists j tj,
       tasks Scenario.login_pending !! j = Some tj /\
       login_in_flight tj = true /\
       forall r, exists s',
         step Scenario.login_pending (j, LoginReturned r) = Some s' /\
         locked (vars s') = false).
Proof.
  apply (callers_never_deadlock None 3 [(0, Acquired)] Scenario.login_pending).
  reflexivity.
Defined.

End ConcMore.

(* ===================================================================== *)
(** ** Concurrent callers: how many logins, and which token *)
(* ===================================================================== *)

Module ConcPolicy.
Import Conc Terms.

Local Open Scope nat_scope.




End ConcPolicy.
